(** * The short-code mapping store of the URL shortener

    A shallow embedding of [url-shortener/main.go]: the in-memory map
    [urls], its JSON snapshot [urls.json], the code generator and the
    HTTP/CLI entry points that call [shorten].

    Go strings are byte sequences, so they are modelled by [string]
    (a list of 8-bit [ascii]).  The map [urls] is a [gmap string string].
    The parts of the Go standard library the program calls
    ([unicode/utf8], [encoding/json], [os], [math/rand]) are modelled by
    what they are documented to do on the values this program passes. *)

From Stdlib Require Import Strings.String Strings.Ascii NArith Lia.
From stdpp Require Import gmap strings list fin_maps sorting.

Local Open Scope N_scope.

(** ** Byte strings *)

Definition byte (n : N) : ascii := ascii_of_N n.

Definition dquote : ascii := byte 34.
Definition backslash : ascii := byte 92.
Definition newline : ascii := byte 10.

(** [s[n:]] *)
Fixpoint skip (n : nat) (s : string) : string :=
  match n, s with
  | O, _ => s
  | S n', String _ s' => skip n' s'
  | S _, EmptyString => EmptyString
  end.

(** [s[:n]] *)
Fixpoint upto (n : nat) (s : string) : string :=
  match n, s with
  | O, _ => EmptyString
  | S n', String c s' => String c (upto n' s')
  | S _, EmptyString => EmptyString
  end.

(** ** unicode/utf8 *)

Module utf8.

Definition RuneError : N := 0xFFFD.
Definition RuneSelf : N := 0x80.
Definition MaxRune : N := 0x10FFFF.

Definition surrogateMin : N := 0xD800.
Definition surrogateMax : N := 0xDFFF.

Definition tx : N := 0x80.
Definition t2 : N := 0xC0.
Definition t3 : N := 0xE0.
Definition t4 : N := 0xF0.

Definition maskx : N := 0x3F.
Definition mask2 : N := 0x1F.
Definition mask3 : N := 0x0F.
Definition mask4 : N := 0x07.

Definition rune1Max : N := 0x7F.
Definition rune2Max : N := 0x7FF.
Definition rune3Max : N := 0xFFFF.

Definition locb : N := 0x80.
Definition hicb : N := 0xBF.

(** Entries of the table [first]: the low three bits are the length of
    the sequence, the high four bits select the accept range of the
    second byte. *)
Definition xx : N := 0xF1.
Definition as_ : N := 0xF0.
Definition s1 : N := 0x02.
Definition s2 : N := 0x13.
Definition s3 : N := 0x03.
Definition s4 : N := 0x23.
Definition s5 : N := 0x34.
Definition s6 : N := 0x04.
Definition s7 : N := 0x44.

Definition first (b : N) : N :=
  if b <? 0x80 then as_
  else if b <? 0xC2 then xx
  else if b <? 0xE0 then s1
  else if b =? 0xE0 then s2
  else if b <? 0xED then s3
  else if b =? 0xED then s4
  else if b <? 0xF0 then s3
  else if b =? 0xF0 then s5
  else if b <? 0xF4 then s6
  else if b =? 0xF4 then s7
  else xx.

(** [acceptRanges]: lowest and highest value allowed for the second
    byte. *)
Definition acceptRanges (i : N) : N * N :=
  if i =? 0 then (locb, hicb)
  else if i =? 1 then (0xA0, hicb)
  else if i =? 2 then (locb, 0x9F)
  else if i =? 3 then (0x90, hicb)
  else (locb, 0x8F).

(** [utf8.DecodeRuneInString]: the first rune of [s] and its width in
    bytes; [(RuneError, 1)] when the encoding is invalid, which
    includes a sequence that is cut short. *)
Definition DecodeRuneInString (s : string) : N * nat :=
  match s with
  | EmptyString => (RuneError, 0%nat)
  | String c0 r0 =>
    let b0 := N_of_ascii c0 in
    let x := first b0 in
    if as_ <=? x then ((if x =? xx then RuneError else b0), 1%nat)
    else
      let sz := N.land x 7 in
      let accept := acceptRanges (N.shiftr x 4) in
      match r0 with
      | EmptyString => (RuneError, 1%nat)
      | String c1 r1 =>
        let b1 := N_of_ascii c1 in
        if (b1 <? fst accept) || (snd accept <? b1) then (RuneError, 1%nat)
        else if sz <=? 2 then
          (N.lor (N.shiftl (N.land b0 mask2) 6) (N.land b1 maskx), 2%nat)
        else
          match r1 with
          | EmptyString => (RuneError, 1%nat)
          | String c2 r2 =>
            let b2 := N_of_ascii c2 in
            if (b2 <? locb) || (hicb <? b2) then (RuneError, 1%nat)
            else if sz <=? 3 then
              (N.lor (N.lor (N.shiftl (N.land b0 mask3) 12)
                            (N.shiftl (N.land b1 maskx) 6))
                     (N.land b2 maskx), 3%nat)
            else
              match r2 with
              | EmptyString => (RuneError, 1%nat)
              | String c3 _ =>
                let b3 := N_of_ascii c3 in
                if (b3 <? locb) || (hicb <? b3) then (RuneError, 1%nat)
                else
                  (N.lor (N.lor (N.lor (N.shiftl (N.land b0 mask4) 18)
                                       (N.shiftl (N.land b1 maskx) 12))
                                (N.shiftl (N.land b2 maskx) 6))
                         (N.land b3 maskx), 4%nat)
              end
          end
      end
  end.

Definition enc3 (r : N) : string :=
  String (byte (N.lor t3 (N.shiftr r 12)))
    (String (byte (N.lor tx (N.land (N.shiftr r 6) maskx)))
       (String (byte (N.lor tx (N.land r maskx))) EmptyString)).

(** [utf8.AppendRune] on an empty buffer: the UTF-8 encoding of [r];
    surrogates and values above [MaxRune] are encoded as [RuneError]. *)
Definition AppendRune (r : N) : string :=
  if r <=? rune1Max then String (byte r) EmptyString
  else if r <=? rune2Max then
    String (byte (N.lor t2 (N.shiftr r 6)))
      (String (byte (N.lor tx (N.land r maskx))) EmptyString)
  else if (MaxRune <? r) || ((surrogateMin <=? r) && (r <=? surrogateMax))
  then enc3 RuneError
  else if r <=? rune3Max then enc3 r
  else
    String (byte (N.lor t4 (N.shiftr r 18)))
      (String (byte (N.lor tx (N.land (N.shiftr r 12) maskx)))
         (String (byte (N.lor tx (N.land (N.shiftr r 6) maskx)))
            (String (byte (N.lor tx (N.land r maskx))) EmptyString))).

(** An invalid byte decodes to [(RuneError, 1)]; the valid encoding of
    U+FFFD itself has width 3. *)
Definition invalid (d : N * nat) : bool :=
  (fst d =? RuneError) && Nat.eqb (snd d) 1.

(** [utf8.ValidString]: every rune of [s] decodes. *)
Fixpoint valid_loop (fuel : nat) (s : string) : bool :=
  match s with
  | EmptyString => true
  | String _ _ =>
    match fuel with
    | O => false
    | S fuel' =>
      let d := DecodeRuneInString s in
      if invalid d then false else valid_loop fuel' (skip (snd d) s)
    end
  end.

Definition ValidString (s : string) : bool := valid_loop (String.length s) s.

End utf8.


(** ** encoding/json, for the type [map[string]string] *)

Module json.

Definition hex : string := "0123456789abcdef".

Definition hexdigit (n : N) : ascii :=
  match String.get (N.to_nat n) hex with
  | Some c => c
  | None => "0"%char
  end.

(** [htmlSafeSet]: the ASCII bytes written as they are when HTML
    escaping is on, which is the encoder's default. *)
Definition htmlSafeSet (b : N) : bool :=
  (0x20 <=? b) && (b <? 0x80)
  && negb (b =? 34) && negb (b =? 92)
  && negb (b =? 38) && negb (b =? 60) && negb (b =? 62).

(** What [appendString] writes for an ASCII byte outside
    [htmlSafeSet]. *)
Definition escape (c : ascii) : string :=
  let b := N_of_ascii c in
  if (b =? 92) || (b =? 34) then String backslash (String c EmptyString)
  else if b =? 8 then "\b"
  else if b =? 12 then "\f"
  else if b =? 10 then "\n"
  else if b =? 13 then "\r"
  else if b =? 9 then "\t"
  else "\u00" +:+ String (hexdigit (N.shiftr b 4))
                   (String (hexdigit (N.land b 0xF)) EmptyString).

(** The loop of [appendString]: one iteration per rune of [src].  Go
    hands [DecodeRuneInString] at most [UTFMax] bytes of [src], which
    is all it reads. *)
Fixpoint appendString_loop (fuel : nat) (src : string) : string :=
  match src with
  | EmptyString => EmptyString
  | String c rest =>
    match fuel with
    | O => EmptyString
    | S fuel' =>
      let b := N_of_ascii c in
      if b <? utf8.RuneSelf then
        (if htmlSafeSet b then String c EmptyString else escape c)
        +:+ appendString_loop fuel' rest
      else
        let d := utf8.DecodeRuneInString src in
        if utf8.invalid d then
          "\ufffd" +:+ appendString_loop fuel' (skip (snd d) src)
        else if (fst d =? 0x2028) || (fst d =? 0x2029) then
          "\u202" +:+ String (hexdigit (N.land (fst d) 0xF))
                        (appendString_loop fuel' (skip (snd d) src))
        else
          upto (snd d) src +:+ appendString_loop fuel' (skip (snd d) src)
    end
  end.

(** [appendString]: [src] as a JSON string literal. *)
Definition appendString (src : string) : string :=
  String dquote
    (appendString_loop (String.length src) src +:+ String dquote EmptyString).

(** The order [mapEncoder] sorts the keys in: [strings.Compare]. *)
Definition key_le (p q : string * string) : Prop :=
  String.leb (fst p) (fst q).

#[global] Instance key_le_dec p q : Decision (key_le p q).
Proof. unfold key_le. apply _. Defined.

Definition sorted_entries (m : gmap string string) : list (string * string) :=
  merge_sort key_le (map_to_list m).

Definition member (kv : string * string) : string :=
  appendString (fst kv) +:+ ": " +:+ appendString (snd kv).

Definition indent : string := "  ".

Fixpoint members (l : list (string * string)) : string :=
  match l with
  | [] => EmptyString
  | [kv] => member kv
  | kv :: l' => member kv +:+ String "," (String newline indent) +:+ members l'
  end.

(** [json.MarshalIndent] of [m] with no prefix and an indent of two
    spaces. *)
Definition MarshalIndent (m : gmap string string) : string :=
  match sorted_entries m with
  | [] => "{}"
  | l => String "{" (String newline indent) +:+ members l
         +:+ String newline "}"
  end.

(** The bytes [Encoder.Encode] writes once [SetIndent] has set an
    indent of two spaces: the indented object and a newline. *)
Definition Encode (m : gmap string string) : string :=
  MarshalIndent m +:+ String newline EmptyString.

(** *** Decoding *)

Definition hexval (c : ascii) : option N :=
  let b := N_of_ascii c in
  if (48 <=? b) && (b <=? 57) then Some (b - 48)
  else if (97 <=? b) && (b <=? 102) then Some (b - 97 + 10)
  else if (65 <=? b) && (b <=? 70) then Some (b - 65 + 10)
  else None.

(** [getu4]: the value of a [\uXXXX] escape at the start of [s]; [None]
    is Go's [-1]. *)
Definition getu4 (s : string) : option N :=
  match s with
  | String c0 (String c1 (String h1 (String h2 (String h3 (String h4 _))))) =>
    if Ascii.eqb c0 backslash && Ascii.eqb c1 "u" then
      match hexval h1, hexval h2, hexval h3, hexval h4 with
      | Some d1, Some d2, Some d3, Some d4 =>
        Some (((d1 * 16 + d2) * 16 + d3) * 16 + d4)
      | _, _, _, _ => None
      end
    else None
  | _ => None
  end.

Definition surr1 : N := 0xD800.
Definition surr2 : N := 0xDC00.
Definition surr3 : N := 0xE000.
Definition surrSelf : N := 0x10000.

(** [utf16.IsSurrogate] *)
Definition IsSurrogate (r : N) : bool := (surr1 <=? r) && (r <? surr3).

(** [utf16.DecodeRune] with [None] for a second half that is no
    escape. *)
Definition utf16_DecodeRune (r1 : N) (r2 : option N) : N :=
  match r2 with
  | Some r2 =>
    if (surr1 <=? r1) && (r1 <? surr2) && (surr2 <=? r2) && (r2 <? surr3)
    then N.lor (N.shiftl (r1 - surr1) 10) (r2 - surr2) + surrSelf
    else utf8.RuneError
  | None => utf8.RuneError
  end.

Definition emit (out : string) (r : option (string * string))
  : option (string * string) :=
  match r with
  | Some (t, rest) => Some (out +:+ t, rest)
  | None => None
  end.

(** The body of a string literal, from the byte after the opening
    quote: the decoded string and the input after the closing quote.
    This is the scanner's search for the end of the literal together
    with [unquoteBytes]; [None] is a syntax error. *)
Fixpoint unquote_loop (fuel : nat) (s : string) : option (string * string) :=
  match fuel with
  | O => None
  | S fuel' =>
    match s with
    | EmptyString => None
    | String c rest =>
      let b := N_of_ascii c in
      if b =? 92 then
        match rest with
        | EmptyString => None
        | String e rest' =>
          let x := N_of_ascii e in
          if (x =? 34) || (x =? 92) || (x =? 47) then
            emit (String e EmptyString) (unquote_loop fuel' rest')
          else if x =? 98 then emit (String (byte 8) EmptyString) (unquote_loop fuel' rest')
          else if x =? 102 then emit (String (byte 12) EmptyString) (unquote_loop fuel' rest')
          else if x =? 110 then emit (String (byte 10) EmptyString) (unquote_loop fuel' rest')
          else if x =? 114 then emit (String (byte 13) EmptyString) (unquote_loop fuel' rest')
          else if x =? 116 then emit (String (byte 9) EmptyString) (unquote_loop fuel' rest')
          else if x =? 117 then
            match getu4 s with
            | None => None
            | Some rr =>
              let after := skip 6 s in
              if IsSurrogate rr then
                let dec := utf16_DecodeRune rr (getu4 after) in
                if negb (dec =? utf8.RuneError) then
                  emit (utf8.AppendRune dec) (unquote_loop fuel' (skip 6 after))
                else
                  emit (utf8.AppendRune utf8.RuneError) (unquote_loop fuel' after)
              else emit (utf8.AppendRune rr) (unquote_loop fuel' after)
            end
          else None
        end
      else if b =? 34 then Some (EmptyString, rest)
      else if b <? 0x20 then None
      else if b <? utf8.RuneSelf then
        emit (String c EmptyString) (unquote_loop fuel' rest)
      else
        let d := utf8.DecodeRuneInString s in
        emit (utf8.AppendRune (fst d)) (unquote_loop fuel' (skip (snd d) s))
    end
  end.

(** A string literal at the start of [s]. *)
Definition literal (s : string) : option (string * string) :=
  match s with
  | String c rest =>
    if N_of_ascii c =? 34 then unquote_loop (String.length rest) rest else None
  | EmptyString => None
  end.

Definition isSpace (c : ascii) : bool :=
  let b := N_of_ascii c in
  (b =? 32) || (b =? 9) || (b =? 13) || (b =? 10).

Fixpoint skip_space (s : string) : string :=
  match s with
  | String c rest => if isSpace c then skip_space rest else s
  | EmptyString => s
  end.

(** The members of an object, from the first byte of a key: every
    member is stored into [m] as it is read, a later one over an
    earlier one of the same key. *)
Fixpoint object_loop (fuel : nat) (s : string) (m : gmap string string)
  : option (gmap string string) :=
  match fuel with
  | O => None
  | S fuel' =>
    match literal s with
    | None => None
    | Some (k, s1) =>
      match skip_space s1 with
      | String c1 s2 =>
        if N_of_ascii c1 =? 58 then
          match literal (skip_space s2) with
          | None => None
          | Some (v, s3) =>
            let m' := <[k := v]> m in
            match skip_space s3 with
            | String c2 s4 =>
              if N_of_ascii c2 =? 44 then object_loop fuel' (skip_space s4) m'
              else if N_of_ascii c2 =? 125 then Some m'
              else None
            | EmptyString => None
            end
          end
        else None
      | EmptyString => None
      end
    end
  end.

(** [Decoder.Decode (&m)] on the input [data], for a map [m] that is
    not nil: the first JSON value of [data] must be an object whose
    values are string literals; its members are added to [m].  Go's
    decoder accepts more ([null], and reports a value of another kind
    only after it has stored the other members); every such input is
    outside what [Encode] writes and is an error here. *)
Definition Decode (data : string) (m : gmap string string)
  : option (gmap string string) :=
  match skip_space data with
  | String c s1 =>
    if N_of_ascii c =? 123 then
      match skip_space s1 with
      | String c' s2 =>
        if N_of_ascii c' =? 125 then Some m
        else object_loop (String.length s1) (String c' s2) m
      | EmptyString => None
      end
    else None
  | EmptyString => None
  end.

End json.

(** ** The process and its environment *)

Local Open Scope string_scope.
Local Open Scope nat_scope.

(** The errors of [os] and of [encoding/json] the program can meet. *)
Inductive error : Type :=
| ErrNotExist
| ErrPermission
| ErrNoSpace
| ErrIO
| ErrDecode.

(** [os.IsNotExist] *)
Definition IsNotExist (e : error) : bool :=
  match e with
  | ErrNotExist => true
  | _ => false
  end.

(** A system call that fails: its error and, for a write, the number of
    bytes that reached the file before it failed. *)
Record fault : Type := Fault { fault_err : error; fault_written : nat }.

(** The state the program runs in.
    - [urls] is the package variable of that name;
    - [disk] maps the name of each file of the working directory to its
      bytes;
    - [trail] records every state [disk] has gone through, the latest
      first: it is what an observer of the directory could have seen;
    - [faults] gives the outcome of the system calls to come, in order:
      [None] and the end of the list are success;
    - [rand_src] is the sequence the generator seeded in [init] produces
      and [rand_pos] the number of its values used so far. *)
Record World : Type := mkWorld {
  urls : gmap string string;
  disk : gmap string string;
  trail : list (gmap string string);
  faults : list (option fault);
  rand_src : nat → nat;
  rand_pos : nat
}.

Definition with_urls (m : gmap string string) (w : World) : World :=
  mkWorld m (disk w) (trail w) (faults w) (rand_src w) (rand_pos w).

Definition with_disk (d : gmap string string) (w : World) : World :=
  mkWorld (urls w) d (d :: trail w) (faults w) (rand_src w) (rand_pos w).

Definition with_faults (fs : list (option fault)) (w : World) : World :=
  mkWorld (urls w) (disk w) (trail w) fs (rand_src w) (rand_pos w).

Definition with_rand_pos (p : nat) (w : World) : World :=
  mkWorld (urls w) (disk w) (trail w) (faults w) (rand_src w) p.

(** The outcome of the next system call. *)
Definition syscall (w : World) : option fault * World :=
  match faults w with
  | [] => (None, w)
  | f :: fs => (f, with_faults fs w)
  end.

(** *** os *)

(** [os.Open]: the bytes of the file, which stand for the open file. *)
Definition os_Open (name : string) (w : World)
  : (option string * option error) * World :=
  match disk w !! name with
  | None => ((None, Some ErrNotExist), w)
  | Some data =>
    let '(f, w1) := syscall w in
    match f with
    | Some ft => ((None, Some (fault_err ft)), w1)
    | None => ((Some data, None), w1)
    end
  end.

(** [os.Create]: the file is created, or truncated when it exists. *)
Definition os_Create (name : string) (w : World) : option error * World :=
  let '(f, w1) := syscall w in
  match f with
  | Some ft => (Some (fault_err ft), w1)
  | None => (None, with_disk (<[name := EmptyString]> (disk w1)) w1)
  end.

Definition contents (name : string) (w : World) : string :=
  default EmptyString (disk w !! name).

(** [File.Write] at the end of the file [name]. *)
Definition file_Write (name data : string) (w : World) : option error * World :=
  let '(f, w1) := syscall w in
  match f with
  | Some ft =>
    (Some (fault_err ft),
     with_disk (<[name := contents name w1 +:+ upto (fault_written ft) data]> (disk w1)) w1)
  | None =>
    (None, with_disk (<[name := contents name w1 +:+ data]> (disk w1)) w1)
  end.

(** [File.Close] *)
Definition file_Close (w : World) : option error * World :=
  let '(f, w1) := syscall w in
  (fault_err <$> f, w1).

(** [os.Rename]: [newname] gets the bytes of [oldname] in one step. *)
Definition os_Rename (oldname newname : string) (w : World) : option error * World :=
  let '(f, w1) := syscall w in
  match f with
  | Some ft => (Some (fault_err ft), w1)
  | None =>
    match disk w1 !! oldname with
    | None => (Some ErrNotExist, w1)
    | Some data => (None, with_disk (<[newname := data]> (delete oldname (disk w1))) w1)
    end
  end.

(** [json.NewDecoder (file).Decode (&urls)]: reading the file can fail;
    what was read is decoded into [urls]. *)
Definition decode_urls (file : string) (w : World) : option error * World :=
  let '(f, w1) := syscall w in
  match f with
  | Some ft => (Some (fault_err ft), w1)
  | None =>
    match json.Decode file (urls w1) with
    | None => (Some ErrDecode, w1)
    | Some m => (None, with_urls m w1)
    end
  end.

(** [encoder.Encode (urls)] on the file [name], after
    [encoder.SetIndent]. *)
Definition encode_urls (name : string) (w : World) : option error * World :=
  file_Write name (json.Encode (urls w)) w.

(** *** math/rand *)

(** [rand.Intn (n)] *)
Definition rand_Intn (n : nat) (w : World) : nat * World :=
  (rand_src w (rand_pos w) mod n, with_rand_pos (S (rand_pos w)) w).

(** ** main.go *)

Definition dbFile : string := "urls.json".
Definition baseURL : string := "http://localhost:8080/".
Definition codeLength : nat := 6.

(** [load] *)
Definition load (w : World) : option error * World :=
  let '((file, err), w1) := os_Open dbFile w in
  match err, file with
  | Some e, _ => if IsNotExist e then (None, w1) else (Some e, w1)
  | None, None => (None, w1) (* [os_Open] gives a file or an error *)
  | None, Some data =>
    let '(r, w2) := decode_urls data w1 in
    let '(_, w3) := file_Close w2 in
    (r, w3)
  end.

(** [init]: the map is made empty and the snapshot loaded; an error of
    [load] is logged and the process goes on. *)
Definition init (w : World) : World :=
  snd (load (with_urls ∅ w)).

(** [save] *)
Definition save (w : World) : option error * World :=
  let temp := dbFile +:+ ".tmp" in
  let '(err, w1) := os_Create temp w in
  match err with
  | Some e => (Some e, w1)
  | None =>
    let '(err, w2) := encode_urls temp w1 in
    match err with
    | Some e =>
      let '(_, w3) := file_Close w2 in
      (Some e, w3)
    | None =>
      let '(_, w3) := file_Close w2 in
      os_Rename temp dbFile w3
    end
  end.

Definition letters : string :=
  "abcdefghijklmnopqrstuvwxyzABCDEFGHIJKLMNOPQRSTUVWXYZ0123456789".

(** [letters[i]]; the index [rand.Intn (len (letters))] is in range. *)
Definition letter (i : nat) : ascii :=
  default "000"%char (String.get i letters).

(** The loop of [generateCode], for the [n] positions left to fill. *)
Fixpoint generate (n : nat) (w : World) : string * World :=
  match n with
  | O => (EmptyString, w)
  | S n' =>
    let '(i, w1) := rand_Intn (String.length letters) w in
    let '(s, w2) := generate n' w1 in
    (String (letter i) s, w2)
  end.

(** [generateCode] *)
Definition generateCode (w : World) : string * World :=
  generate codeLength w.

(** [shorten], which runs with [mu] locked from its first statement to
    its return.  The loop [for { ... }] has no bound: [fuel] is the number
    of codes it may try and [None] means it has not returned within
    them. *)
Fixpoint shorten (fuel : nat) (u : string) (w : World)
  : option ((string * option error) * World) :=
  match fuel with
  | O => None
  | S fuel' =>
    let '(code, w1) := generateCode w in
    match urls w1 !! code with
    | None =>
      let w2 := with_urls (<[code := u]> (urls w1)) w1 in
      let '(err, w3) := save w2 in
      match err with
      | Some e => Some ((EmptyString, Some e), w3)
      | None => Some ((baseURL +:+ code, None), w3)
      end
    | Some _ => shorten fuel' u w1
    end
  end.

(** What a handler answers: a call of [http.Redirect], of [http.Error]
    or of [http.NotFound], or the JSON object with the member
    [short_url]. *)
Inductive Response : Type :=
| Redirect (url : string) (code : nat)
| Error (message : string) (code : nat)
| NotFound
| ShortURL (short_url : string).

Definition StatusFound : nat := 302.
Definition StatusBadRequest : nat := 400.
Definition StatusMethodNotAllowed : nat := 405.
Definition StatusInternalServerError : nat := 500.

(** [redirectHandler] on [r.URL.Path]; [None] is the run-time panic of
    [Path[1:]] on the empty string. *)
Definition redirectHandler (path : string) (w : World) : option Response :=
  match path with
  | EmptyString => None
  | String _ code =>
    match urls w !! code with
    | Some dest => Some (Redirect dest StatusFound)
    | None => Some NotFound
    end
  end.

(** A request to [/shorten]: its method and what decoding its body into
    [req] gives, [None] when the decoder fails and [req.URL] otherwise
    (the empty string when the body has no member [url]). *)
Record Request : Type := mkRequest { Method : string; Body : option string }.

(** [shortenHandler] *)
Definition shortenHandler (fuel : nat) (r : Request) (w : World)
  : option (Response * World) :=
  if negb (String.eqb (Method r) "POST") then
    Some (Error "Method not allowed" StatusMethodNotAllowed, w)
  else
    match Body r with
    | None => Some (Error "Bad request" StatusBadRequest, w)
    | Some url =>
      match shorten fuel url w with
      | None => None
      | Some ((short, err), w') =>
        match err with
        | Some _ => Some (Error "Internal server error" StatusInternalServerError, w')
        | None => Some (ShortURL short, w')
        end
      end
    end.

(** What [runCLI] does once the flags are parsed. *)
Inductive Outcome : Type :=
| Serve
| Printed (line : string)
| Fatal (e : error)
| Usage
| Reply (message : string).

(** [runCLI], from the values of the flags [-serve] and [-url]. *)
Definition runCLI (fuel : nat) (serve : bool) (longURL : string) (w : World)
  : option (Outcome * World) :=
  if serve then Some (Serve, w)
  else if negb (String.eqb longURL EmptyString) then
    match shorten fuel longURL w with
    | None => None
    | Some ((short, err), w') =>
      match err with
      | Some e => Some (Fatal e, w')
      | None => Some (Printed ("Shortened URL: " +:+ short), w')
      end
    end
  else Some (Usage, w).

(** [messageCreate] of bot.go for a message that carries the command
    prefix, from [longURL], the trimmed text after the prefix. *)
Definition messageCreate (fuel : nat) (longURL : string) (w : World)
  : option (Outcome * World) :=
  if String.eqb longURL EmptyString then
    Some (Reply "Please provide a URL to shorten. Usage: `!shorten <URL>`", w)
  else
    match shorten fuel longURL w with
    | None => None
    | Some ((short, err), w') =>
      match err with
      | Some _ => Some (Reply "Failed to shorten URL.", w')
      | None => Some (Reply ("Short URL: " +:+ short), w')
      end
    end.

(** ** Notions the properties are stated with *)

(** The characters of [generateCode]'s result when the generator is at
    position [p] of the sequence [src]. *)
Fixpoint draw (n : nat) (src : nat → nat) (p : nat) : string :=
  match n with
  | O => EmptyString
  | S n' => String (letter (src p mod String.length letters)) (draw n' src (S p))
  end.

(** The code the loop of [shorten] tries in its iteration [j], counted
    from 0. *)
Definition candidate (j : nat) (w : World) : string :=
  draw codeLength (rand_src w) (codeLength * j + rand_pos w).

(** The state in which iteration [j] of the loop tests its code. *)
Definition drawn (j : nat) (w : World) : World :=
  with_rand_pos (codeLength * S j + rand_pos w) w.

(** The end of [shorten] once a free code is found: the insertion, [save]
    and the two ways to return. *)
Definition commit (u code : string) (w : World) : (string * option error) * World :=
  let w2 := with_urls (<[code := u]> (urls w)) w in
  let '(err, w3) := save w2 in
  match err with
  | Some e => ((EmptyString, Some e), w3)
  | None => ((baseURL +:+ code, None), w3)
  end.

Definition alphabet : list ascii := list_ascii_of_string letters.

Definition alnum (c : ascii) : bool :=
  let b := N_of_ascii c in
  ((97 <=? b) && (b <=? 122) || (65 <=? b) && (b <=? 90) || (48 <=? b) && (b <=? 57))%N.

(** Invariant I2 for one code. *)
Definition well_formed (code : string) : Prop :=
  String.length code = 6 ∧ Forall (λ c, c ∈ alphabet) (list_ascii_of_string code).

(** No system call to come fails. *)
Definition no_fault (w : World) : Prop := Forall (λ f, f = None) (faults w).

Definition tempFile : string := dbFile +:+ ".tmp".

(** The facade [Resolve] in the words of the specification, to compare
    [redirectHandler] with: it strips a leading path separator when the
    fragment has one and looks the rest up. *)
Definition strip_separator (fragment : string) : string :=
  match fragment with
  | String "/" rest => rest
  | _ => fragment
  end.

Definition Resolve_spec (fragment : string) (m : gmap string string) : string * bool :=
  match m !! strip_separator fragment with
  | Some target => (target, true)
  | None => (EmptyString, false)
  end.

(** What [redirectHandler] answers for an outcome of [Resolve]. *)
Definition answer (r : string * bool) : Response :=
  if snd r then Redirect (fst r) StatusFound else NotFound.

(** The well-formed UTF-8 encodings [e] of a code point [r]: one to four
    bytes, without overlong forms, surrogates or values above U+10FFFF. *)
Inductive utf8_encoding : string → N → Prop :=
| utf8_enc1 c0 :
    (N_of_ascii c0 < 0x80)%N →
    utf8_encoding (String c0 EmptyString) (N_of_ascii c0)
| utf8_enc2 c0 c1 :
    (0xC2 <= N_of_ascii c0 <= 0xDF)%N →
    (0x80 <= N_of_ascii c1 <= 0xBF)%N →
    utf8_encoding (String c0 (String c1 EmptyString))
      ((N_of_ascii c0 - 0xC0) * 64 + (N_of_ascii c1 - 0x80))%N
| utf8_enc3 c0 c1 c2 :
    (0xE0 <= N_of_ascii c0 <= 0xEF)%N →
    (0x80 <= N_of_ascii c1 <= 0xBF)%N →
    (0x80 <= N_of_ascii c2 <= 0xBF)%N →
    (N_of_ascii c0 = 0xE0 → 0xA0 <= N_of_ascii c1)%N →
    (N_of_ascii c0 = 0xED → N_of_ascii c1 <= 0x9F)%N →
    utf8_encoding (String c0 (String c1 (String c2 EmptyString)))
      ((N_of_ascii c0 - 0xE0) * 4096 + (N_of_ascii c1 - 0x80) * 64
       + (N_of_ascii c2 - 0x80))%N
| utf8_enc4 c0 c1 c2 c3 :
    (0xF0 <= N_of_ascii c0 <= 0xF4)%N →
    (0x80 <= N_of_ascii c1 <= 0xBF)%N →
    (0x80 <= N_of_ascii c2 <= 0xBF)%N →
    (0x80 <= N_of_ascii c3 <= 0xBF)%N →
    (N_of_ascii c0 = 0xF0 → 0x90 <= N_of_ascii c1)%N →
    (N_of_ascii c0 = 0xF4 → N_of_ascii c1 <= 0x8F)%N →
    utf8_encoding (String c0 (String c1 (String c2 (String c3 EmptyString))))
      ((N_of_ascii c0 - 0xF0) * 262144 + (N_of_ascii c1 - 0x80) * 4096
       + (N_of_ascii c2 - 0x80) * 64 + (N_of_ascii c3 - 0x80))%N.

(** What [object_loop] makes of the members [l] read in order. *)
Definition store (m : gmap string string) (l : list (string * string))
  : gmap string string :=
  foldl (λ acc kv, <[kv.1 := kv.2]> acc) m l.

(** Key and value are valid UTF-8. *)
Definition valid_entry (kv : string * string) : Prop :=
  utf8.ValidString kv.1 = true ∧ utf8.ValidString kv.2 = true.

Definition valid_map (m : gmap string string) : Prop :=
  map_Forall (λ k v, valid_entry (k, v)) m.

(** What a call that returned left in the map under [code] and in the
    directory under [name]. *)
Definition urls_after {A : Type} (r : option (A * World)) (code : string)
  : option string :=
  r ≫= λ x, urls x.2 !! code.

Definition file_after {A : Type} (r : option (A * World)) (name : string)
  : option string :=
  r ≫= λ x, disk x.2 !! name.

(** No byte of [s] is a control character. *)
Fixpoint printable (s : string) : bool :=
  match s with
  | EmptyString => true
  | String c s' => (0x20 <=? N_of_ascii c)%N && printable s'
  end.

(** The only control character of [s] is the line feed. *)
Fixpoint readable (s : string) : bool :=
  match s with
  | EmptyString => true
  | String c s' => (Ascii.eqb c newline || (0x20 <=? N_of_ascii c)%N) && readable s'
  end.

(** The number of line feeds of [s], which is its number of lines when
    it ends in one. *)
Fixpoint newlines (s : string) : nat :=
  match s with
  | EmptyString => 0
  | String c s' => (if Ascii.eqb c newline then 1 else 0) + newlines s'
  end.

(** Some states to run the program in: an empty store whose generator
    yields [0] for ever, so that every code is [aaaaaa]; the same with a
    disk that fills up three bytes into the first write; a store that
    holds the code [abc]; a directory whose snapshot is no JSON. *)
Definition world_empty : World :=
  mkWorld ∅ ∅ [] [] (λ _, 0) 0.

Definition world_disk_full : World :=
  mkWorld ∅ ∅ [] [None; Some (Fault ErrNoSpace 3)] (λ _, 0) 0.

Definition world_abc : World :=
  mkWorld {["abc" := "https://example.com/a"]} ∅ [] [] (λ _, 0) 0.

Definition world_corrupt : World :=
  mkWorld ∅ {[dbFile := "not json"]} [] [] (λ _, 0) 0.

(** A run of [n] calls of [shorten] that returned, one after the
    other, whatever each of them returned. *)
Inductive calls : World → nat → World → Prop :=
| calls_done w : calls w 0 w
| calls_shorten w fuel u r w1 n w2 :
    shorten fuel u w = Some (r, w1) →
    calls w1 n w2 →
    calls w (S n) w2.

(** More states to run the program in.  The generator of
    [world_counting] yields six times 0, then six times 1 and so on, so
    that the codes are [aaaaaa], [bbbbbb], ...; [world_collision] has
    the first of them taken; in [world_taken] the generator only ever
    yields the one code that is taken; [world_retry] is
    [world_counting] with a disk that is full during the first write;
    [world_merge] holds an entry and finds a snapshot with another. *)
Definition world_counting : World :=
  mkWorld ∅ ∅ [] [] (λ i, i / 6) 0.

Definition world_collision : World :=
  mkWorld {["aaaaaa" := "https://example.com/a"]} ∅ [] [] (λ i, i / 6) 0.

Definition world_taken : World :=
  mkWorld {["aaaaaa" := "https://example.com/a"]} ∅ [] [] (λ _, 0) 0.

Definition world_retry : World :=
  mkWorld ∅ ∅ [] [None; Some (Fault ErrNoSpace 3)] (λ i, i / 6) 0.

(** A store in step with its snapshot, on a disk that is full during
    the next write. *)
Definition world_synced : World :=
  mkWorld {["abc" := "https://example.com/a"]}
          {[dbFile := json.Encode {["abc" := "https://example.com/a"]}]}
          [] [None; Some (Fault ErrNoSpace 3)] (λ _, 0) 0.

Definition world_merge : World :=
  mkWorld {["abc" := "https://example.com/a"]}
          {[dbFile := json.Encode {["xyz" := "https://example.com/x"]}]}
          [] [] (λ _, 0) 0.

(** * Properties *)

Ltac Zify.zify_post_hook ::= Z.to_euclidean_division_equations.

(** ** Byte strings *)

Lemma append_cons (c : ascii) (s t : string) :
  String c s +:+ t = String c (s +:+ t).
Proof. reflexivity. Qed.

Lemma append_nil_l (s : string) : EmptyString +:+ s = s.
Proof. reflexivity. Qed.

Lemma append_assoc (s t v : string) : (s +:+ t) +:+ v = s +:+ (t +:+ v).
Proof.
  induction s as [|c s IH]; [reflexivity|]. by rewrite !append_cons, IH.
Qed.

Lemma append_nil_r (s : string) : s +:+ EmptyString = s.
Proof.
  induction s as [|c s IH]; [reflexivity|]. by rewrite append_cons, IH.
Qed.

Lemma length_append (s t : string) :
  String.length (s +:+ t) = String.length s + String.length t.
Proof.
  induction s as [|c s IH]; [reflexivity|]. rewrite append_cons. cbn. by rewrite IH.
Qed.

Lemma upto_skip n s : upto n s +:+ skip n s = s.
Proof.
  revert s. induction n as [|n IH]; intros [|c s]; try reflexivity.
  cbn [upto skip]. by rewrite append_cons, IH.
Qed.

Lemma length_skip n s : String.length (skip n s) = String.length s - n.
Proof.
  revert s. induction n as [|n IH]; intros [|c s]; try reflexivity.
  apply IH.
Qed.

(** ** unicode/utf8 *)

Lemma lor_shiftl_add (a k b : N) :
  (b < 2 ^ k)%N → N.lor (N.shiftl a k) b = (a * 2 ^ k + b)%N.
Proof.
  intros Hb. rewrite <- N.shiftl_mul_pow2.
  assert (Hland : N.land (N.shiftl a k) b = 0%N).
  { apply N.bits_inj. intros i. rewrite N.land_spec, N.bits_0.
    destruct (N.lt_ge_cases i k) as [Hi|Hi].
    - by rewrite N.shiftl_spec_low.
    - destruct (N.eq_0_gt_0_cases b) as [->|Hpos].
      + by rewrite N.bits_0, andb_false_r.
      + rewrite (N.bits_above_log2 b i), andb_false_r; [done|].
        apply N.log2_lt_pow2 in Hb; [lia|done]. }
  by rewrite <- N.lxor_lor, <- N.add_nocarry_lxor.
Qed.

Lemma lor_add (a b k : N) :
  (a mod 2 ^ k = 0)%N → (b < 2 ^ k)%N → N.lor a b = (a + b)%N.
Proof.
  intros Ha Hb.
  assert (H2k : (2 ^ k ≠ 0)%N) by (apply N.pow_nonzero; discriminate).
  assert (Hdiv : a = (a / 2 ^ k * 2 ^ k)%N).
  { pose proof (N.div_mod a (2 ^ k) H2k) as Hdm. rewrite Ha in Hdm. lia. }
  rewrite Hdiv at 1. rewrite <- N.shiftl_mul_pow2, lor_shiftl_add by done. lia.
Qed.

Lemma first_cases (b : N) :
  (b < 0x80 ∧ utf8.first b = utf8.as_
   ∨ (0x80 <= b < 0xC2 ∨ 0xF5 <= b) ∧ utf8.first b = utf8.xx
   ∨ (0xC2 <= b <= 0xDF) ∧ utf8.first b = utf8.s1
   ∨ b = 0xE0 ∧ utf8.first b = utf8.s2
   ∨ (0xE1 <= b <= 0xEC ∨ 0xEE <= b <= 0xEF) ∧ utf8.first b = utf8.s3
   ∨ b = 0xED ∧ utf8.first b = utf8.s4
   ∨ b = 0xF0 ∧ utf8.first b = utf8.s5
   ∨ (0xF1 <= b <= 0xF3) ∧ utf8.first b = utf8.s6
   ∨ b = 0xF4 ∧ utf8.first b = utf8.s7)%N.
Proof.
  unfold utf8.first.
  repeat match goal with
         | |- context [(?x <? ?y)%N] => destruct (N.ltb_spec x y)
         | |- context [(?x =? ?y)%N] => destruct (N.eqb_spec x y)
         end; lia.
Qed.

Ltac bits_to_arith :=
  unfold utf8.maskx, utf8.mask2, utf8.mask3, utf8.mask4;
  change 0x3F%N with (N.ones 6); change 0x1F%N with (N.ones 5);
  change 0x0F%N with (N.ones 4); change 0x07%N with (N.ones 3);
  rewrite ?N.land_ones, ?N.shiftl_mul_pow2, ?N.shiftr_div_pow2;
  change (2 ^ 3)%N with 8%N; change (2 ^ 4)%N with 16%N;
  change (2 ^ 5)%N with 32%N; change (2 ^ 6)%N with 64%N;
  change (2 ^ 12)%N with 4096%N; change (2 ^ 18)%N with 262144%N.

Lemma rune2_value (b0 b1 : N) :
  (0xC0 <= b0 <= 0xDF)%N → (0x80 <= b1 <= 0xBF)%N →
  N.lor (N.shiftl (N.land b0 utf8.mask2) 6) (N.land b1 utf8.maskx)
  = ((b0 - 0xC0) * 64 + (b1 - 0x80))%N.
Proof.
  intros H0 H1. bits_to_arith.
  rewrite (lor_add _ _ 6); change (2 ^ 6)%N with 64%N; lia.
Qed.

Lemma rune3_value (b0 b1 b2 : N) :
  (0xE0 <= b0 <= 0xEF)%N → (0x80 <= b1 <= 0xBF)%N → (0x80 <= b2 <= 0xBF)%N →
  N.lor (N.lor (N.shiftl (N.land b0 utf8.mask3) 12)
               (N.shiftl (N.land b1 utf8.maskx) 6))
        (N.land b2 utf8.maskx)
  = ((b0 - 0xE0) * 4096 + (b1 - 0x80) * 64 + (b2 - 0x80))%N.
Proof.
  intros H0 H1 H2. bits_to_arith.
  rewrite (lor_add (_ * 4096) _ 12) by (change (2 ^ 12)%N with 4096%N; lia).
  rewrite (lor_add _ _ 6); change (2 ^ 6)%N with 64%N; lia.
Qed.

Lemma rune4_value (b0 b1 b2 b3 : N) :
  (0xF0 <= b0 <= 0xF7)%N → (0x80 <= b1 <= 0xBF)%N →
  (0x80 <= b2 <= 0xBF)%N → (0x80 <= b3 <= 0xBF)%N →
  N.lor (N.lor (N.lor (N.shiftl (N.land b0 utf8.mask4) 18)
                      (N.shiftl (N.land b1 utf8.maskx) 12))
               (N.shiftl (N.land b2 utf8.maskx) 6))
        (N.land b3 utf8.maskx)
  = ((b0 - 0xF0) * 262144 + (b1 - 0x80) * 4096 + (b2 - 0x80) * 64 + (b3 - 0x80))%N.
Proof.
  intros H0 H1 H2 H3. bits_to_arith.
  rewrite (lor_add (_ * 262144) _ 18) by (change (2 ^ 18)%N with 262144%N; lia).
  rewrite (lor_add (_ + _ * 4096) _ 12) by (change (2 ^ 12)%N with 4096%N; lia).
  rewrite (lor_add _ _ 6); change (2 ^ 6)%N with 64%N; lia.
Qed.

Ltac decode_consts :=
  repeat match goal with
         | |- context [(utf8.as_ <=? ?x)%N] =>
           let v := eval vm_compute in (utf8.as_ <=? x)%N in
           change (utf8.as_ <=? x)%N with v
         | |- context [(?a =? utf8.xx)%N] =>
           let v := eval vm_compute in (a =? utf8.xx)%N in
           change (a =? utf8.xx)%N with v
         | |- context [utf8.acceptRanges ?x] =>
           let v := eval vm_compute in (utf8.acceptRanges x) in
           change (utf8.acceptRanges x) with v
         | |- context [(N.land ?x 7 <=? ?k)%N] =>
           let v := eval vm_compute in (N.land x 7 <=? k)%N in
           change (N.land x 7 <=? k)%N with v
         end;
  unfold utf8.locb, utf8.hicb; cbn [fst snd].

Ltac split_tests :=
  repeat match goal with
         | |- context [(?x <? ?y)%N] => destruct (N.ltb_spec x y)
         end;
  cbn [orb andb negb].

Lemma invalid_error n : utf8.invalid (utf8.RuneError, n) = false → n ≠ 1.
Proof. intros H ->. discriminate. Qed.

Lemma decode_encoding s r n :
  utf8.DecodeRuneInString s = (r, n) →
  utf8.invalid (r, n) = false →
  s ≠ EmptyString →
  ∃ e, utf8_encoding e r ∧ String.length e = n ∧ s = e +:+ skip n s.
Proof.
  destruct s as [|c0 r0]; [done|]. intros Hd Hv _. revert Hd.
  unfold utf8.DecodeRuneInString.
  destruct (first_cases (N_of_ascii c0))
    as [[H0 ->]|[[H0 ->]|[[H0 ->]|[[H0 ->]|[[H0 ->]|[[H0 ->]|[[H0 ->]|[[H0 ->]|[H0 ->]]]]]]]]].
  all: decode_consts.
  1: { intros [= <- <-]. eexists. split; [by apply utf8_enc1|done]. }
  1: { intros [= <- <-]. done. }
  all: destruct r0 as [|c1 r1]; [intros [= <- <-]; done|].
  all: split_tests; try (intros [= <- <-]; done).
  1: { intros [= <- <-]. rewrite rune2_value by lia.
       eexists. split; [apply utf8_enc2; lia|done]. }
  all: destruct r1 as [|c2 r2]; [intros [= <- <-]; done|].
  all: split_tests; try (intros [= <- <-]; done).
  all: try (intros [= <- <-]; rewrite rune3_value by lia;
            eexists; (split; [apply utf8_enc3; lia|done])).
  all: destruct r2 as [|c3 r3]; [intros [= <- <-]; done|].
  all: split_tests; try (intros [= <- <-]; done).
  all: intros [= <- <-]; rewrite rune4_value by lia;
       eexists; (split; [apply utf8_enc4; lia|done]).
Qed.

Ltac first_value b :=
  let H := fresh "Hfirst" in
  destruct (first_cases b)
    as [[? H]|[[? H]|[[? H]|[[? H]|[[? H]|[[? H]|[[? H]|[[? H]|[? H]]]]]]]]];
  try lia; rewrite H; clear H.

Ltac decide_tests :=
  repeat match goal with
         | |- context [(?x <? ?y)%N] =>
           first [ rewrite (proj2 (N.ltb_lt x y)) by lia
                 | rewrite (proj2 (N.ltb_ge x y)) by lia ]
         | |- context [(?x <=? ?y)%N] =>
           first [ rewrite (proj2 (N.leb_le x y)) by lia
                 | rewrite (proj2 (N.leb_gt x y)) by lia ]
         | |- context [(?x =? ?y)%N] =>
           first [ rewrite (proj2 (N.eqb_eq x y)) by lia
                 | rewrite (proj2 (N.eqb_neq x y)) by lia ]
         end;
  cbn [orb andb negb].

Lemma encoding_decode e r t :
  utf8_encoding e r →
  utf8.DecodeRuneInString (e +:+ t) = (r, String.length e).
Proof.
  intros He. destruct He; rewrite ?append_cons, append_nil_l;
    unfold utf8.DecodeRuneInString; cbn [String.length].
  - first_value (N_of_ascii c0); decode_consts; reflexivity.
  - first_value (N_of_ascii c0); decode_consts; decide_tests.
    by rewrite rune2_value by lia.
  - first_value (N_of_ascii c0); decode_consts; decide_tests;
      by rewrite rune3_value by lia.
  - first_value (N_of_ascii c0); decode_consts; decide_tests;
      by rewrite rune4_value by lia.
Qed.

Lemma byte_N_of_ascii (c : ascii) (n : N) : n = N_of_ascii c → byte n = c.
Proof. intros ->. apply ascii_N_embedding. Qed.

Lemma encoding_append e r : utf8_encoding e r → utf8.AppendRune r = e.
Proof.
  intros He. destruct He; unfold utf8.AppendRune, utf8.enc3,
    utf8.rune1Max, utf8.rune2Max, utf8.rune3Max, utf8.MaxRune,
    utf8.surrogateMin, utf8.surrogateMax; decide_tests.
  - f_equal. by apply byte_N_of_ascii.
  - bits_to_arith. unfold utf8.t2, utf8.tx.
    rewrite (lor_add 0xC0 _ 5), (lor_add 0x80 _ 6)
      by (first [reflexivity | change (2 ^ 5)%N with 32%N; lia
                | change (2 ^ 6)%N with 64%N; lia]).
    repeat f_equal; apply byte_N_of_ascii; lia.
  - destruct (N.leb_spec 55296 ((N_of_ascii c0 - 224) * 4096
                               + (N_of_ascii c1 - 128) * 64 + (N_of_ascii c2 - 128)));
      [decide_tests|]; cbn [andb].
    all: bits_to_arith; unfold utf8.t3, utf8.tx.
    all: rewrite (lor_add 0xE0 _ 4), !(lor_add 0x80 _ 6)
      by (first [reflexivity | change (2 ^ 4)%N with 16%N; lia
                | change (2 ^ 6)%N with 64%N; lia]).
    all: repeat f_equal; apply byte_N_of_ascii; lia.
  - bits_to_arith. unfold utf8.t4, utf8.tx.
    rewrite (lor_add 0xF0 _ 3), !(lor_add 0x80 _ 6)
      by (first [reflexivity | change (2 ^ 3)%N with 8%N; lia
                | change (2 ^ 6)%N with 64%N; lia]).
    repeat f_equal; apply byte_N_of_ascii; lia.
Qed.

Lemma skip_app (e t : string) : skip (String.length e) (e +:+ t) = t.
Proof. induction e as [|c e IH]; [reflexivity|]. exact IH. Qed.

Lemma upto_app (e t : string) : upto (String.length e) (e +:+ t) = e.
Proof.
  induction e as [|c e IH]; [by destruct t|].
  rewrite append_cons. cbn [String.length upto]. by rewrite IH.
Qed.

Lemma decode_ascii c s :
  (N_of_ascii c < 0x80)%N →
  utf8.DecodeRuneInString (String c s) = (N_of_ascii c, 1).
Proof.
  intros Hc. apply (encoding_decode (String c EmptyString) _ s).
  by constructor.
Qed.

Ltac Zify.zify_post_hook ::= idtac.

(** ** encoding/json *)

(** One iteration of [unquoteBytes] undoes what [appendString] writes
    for one ASCII byte. *)
Lemma unquote_ascii c g tail :
  (N_of_ascii c < 0x80)%N →
  json.unquote_loop (S g)
    ((if json.htmlSafeSet (N_of_ascii c) then String c EmptyString
      else json.escape c) +:+ tail)
  = json.emit (String c EmptyString) (json.unquote_loop g tail).
Proof.
  destruct c as [[] [] [] [] [] [] [] []]; intros Hc; try (exfalso; by vm_compute in Hc).
  all: reflexivity.
Qed.

Lemma encoding_nonempty e r : utf8_encoding e r → 1 ≤ String.length e.
Proof. intros []; cbn; lia. Qed.

Lemma encoding_head e r c s t :
  utf8_encoding e r →
  String c s = e +:+ t →
  ∃ e', ∀ tail, e +:+ tail = String c (e' +:+ tail).
Proof.
  intros He Hs. destruct He; rewrite append_cons in Hs; injection Hs as <- _;
    eexists; intros tail; rewrite append_cons; reflexivity.
Qed.

(** A multi-byte rune starts with a byte that [unquoteBytes] decodes as
    UTF-8. *)
Lemma unquote_multibyte e r g tail c s :
  utf8_encoding e r →
  (0x80 <= N_of_ascii c)%N →
  e +:+ tail = String c s →
  json.unquote_loop (S g) (e +:+ tail)
  = json.emit e (json.unquote_loop g tail).
Proof.
  intros He Hc Heq.
  pose proof (encoding_decode e r tail He) as Hd.
  pose proof (encoding_append e r He) as Ha.
  rewrite Heq in Hd |- *. cbn [json.unquote_loop].
  unfold utf8.RuneSelf. decide_tests.
  rewrite Hd. cbn [fst snd]. rewrite Ha, <- Heq. by rewrite skip_app.
Qed.

(** The escapes of U+2028 and U+2029. *)
Lemma unquote_line_separator e r g tail :
  utf8_encoding e r →
  r = 0x2028%N ∨ r = 0x2029%N →
  json.unquote_loop (S g)
    ("\u202" +:+ String (json.hexdigit (N.land r 0xF)) tail)
  = json.emit e (json.unquote_loop g tail).
Proof.
  intros He Hr. rewrite <- (encoding_append e r He).
  destruct Hr as [-> | ->]; reflexivity.
Qed.

Lemma emit_some out t rest :
  json.emit out (Some (t, rest)) = Some (out +:+ t, rest).
Proof. reflexivity. Qed.

Lemma escape_nonempty c :
  1 ≤ String.length (if json.htmlSafeSet (N_of_ascii c) then String c EmptyString
                     else json.escape c).
Proof.
  destruct (json.htmlSafeSet _); [cbn; lia|].
  unfold json.escape.
  repeat match goal with
         | |- context [if ?b then _ else _] => destruct b
         end; rewrite ?length_append; cbn; lia.
Qed.

(** [unquoteBytes] undoes the loop of [appendString] on valid UTF-8. *)
Lemma unquote_appendString_loop fuel s g rest :
  String.length s ≤ fuel →
  utf8.valid_loop fuel s = true →
  String.length (json.appendString_loop fuel s) < g →
  json.unquote_loop g (json.appendString_loop fuel s +:+ String dquote rest)
  = Some (s, rest).
Proof.
  revert s g. induction fuel as [|fuel IH]; intros s g Hlen Hvalid Hg.
  { destruct s; [|cbn in Hlen; lia]. destruct g; [cbn in Hg; lia|]. reflexivity. }
  destruct s as [|c s].
  { destruct g; [cbn in Hg; lia|]. reflexivity. }
  destruct g as [|g]; [lia|].
  cbn [json.appendString_loop utf8.valid_loop] in *.
  cbn [String.length] in Hlen.
  destruct (N.ltb_spec (N_of_ascii c) utf8.RuneSelf) as [Hc|Hc].
  - (* an ASCII byte *)
    rewrite decode_ascii in Hvalid by exact Hc.
    unfold utf8.invalid in Hvalid. cbn [fst snd skip] in Hvalid.
    replace (N_of_ascii c =? utf8.RuneError)%N with false in Hvalid
      by (symmetry; apply N.eqb_neq; unfold utf8.RuneError, utf8.RuneSelf in *; lia).
    cbn [andb] in Hvalid.
    rewrite length_append in Hg. pose proof (escape_nonempty c).
    rewrite append_assoc, unquote_ascii by exact Hc.
    rewrite IH by (done || lia). reflexivity.
  - (* a longer rune *)
    destruct (utf8.DecodeRuneInString (String c s)) as [r n] eqn:Hd.
    destruct (utf8.invalid (r, n)) eqn:Hinv; [discriminate|].
    cbn [fst snd] in *.
    destruct (decode_encoding _ _ _ Hd Hinv ltac:(done)) as (e & He & Hn & Hs).
    pose proof (encoding_nonempty e r He) as He1.
    assert (Hrest : String.length (skip n (String c s)) ≤ fuel).
    { rewrite length_skip. cbn [String.length]. lia. }
    assert (Hupto : upto n (String c s) = e).
    { rewrite Hs at 1. subst n. apply upto_app. }
    destruct ((r =? 8232)%N || (r =? 8233)%N) eqn:Hsep.
    + rewrite append_assoc, (append_cons (json.hexdigit _)).
      rewrite (unquote_line_separator e r g _ He).
      2: { apply orb_true_iff in Hsep as [H|H]; apply N.eqb_eq in H; auto. }
      rewrite length_append in Hg. cbn [String.length] in Hg.
      rewrite IH by (done || lia). rewrite emit_some. by rewrite <- Hs.
    + rewrite Hupto in Hg |- *. rewrite length_append in Hg.
      rewrite append_assoc.
      destruct (encoding_head e r c s _ He Hs) as [e' He'].
      rewrite (unquote_multibyte e r g _ c _ He Hc (He' _)).
      rewrite IH by (done || lia). rewrite emit_some. by rewrite <- Hs.
Qed.

(** [literal] reads back what [appendString] writes. *)
Lemma literal_appendString s rest :
  utf8.ValidString s = true →
  json.literal (json.appendString s +:+ rest) = Some (s, rest).
Proof.
  intros Hs. unfold json.appendString.
  rewrite append_cons, append_assoc, append_cons, append_nil_l.
  unfold json.literal. change (N_of_ascii dquote =? 34)%N with true. cbv iota.
  apply unquote_appendString_loop; [done|exact Hs|].
  rewrite length_append. cbn. lia.
Qed.

Lemma skip_space_appendString s rest :
  json.skip_space (json.appendString s +:+ rest) = json.appendString s +:+ rest.
Proof. reflexivity. Qed.

Lemma skip_space_members l rest :
  l ≠ [] → json.skip_space (json.members l +:+ rest) = json.members l +:+ rest.
Proof.
  destruct l as [|kv [|kv' l]]; [done| |]; intros _; cbn [json.members];
    unfold json.member; rewrite !append_assoc; apply skip_space_appendString.
Qed.

Lemma length_member kv : 1 ≤ String.length (json.member kv).
Proof.
  unfold json.member, json.appendString.
  rewrite append_cons. cbn [String.length]. lia.
Qed.

Lemma length_members l : length l ≤ String.length (json.members l).
Proof.
  induction l as [|kv [|kv' l] IH]; [cbn; lia| |].
  - cbn [json.members length]. pose proof (length_member kv). lia.
  - change (json.members (kv :: kv' :: l))
      with (json.member kv +:+ String "," (String newline json.indent)
            +:+ json.members (kv' :: l)).
    rewrite !length_append. pose proof (length_member kv).
    cbn [length] in *. lia.
Qed.

(** One member, up to the byte after its value. *)
Lemma read_member k v tail :
  valid_entry (k, v) →
  json.literal (json.member (k, v) +:+ tail) = Some (k, ": " +:+ json.appendString v +:+ tail)
  ∧ json.literal (json.skip_space (" " +:+ json.appendString v +:+ tail)) = Some (v, tail).
Proof.
  intros [Hk Hv]. unfold json.member. cbn [fst snd] in *.
  split.
  - by rewrite !append_assoc, literal_appendString.
  - change (json.skip_space (" " +:+ json.appendString v +:+ tail))
      with (json.skip_space (json.appendString v +:+ tail)).
    by rewrite skip_space_appendString, literal_appendString.
Qed.

Lemma object_loop_members l m0 fuel rest :
  l ≠ [] →
  Forall valid_entry l →
  length l ≤ fuel →
  json.object_loop fuel (json.members l +:+ String newline (String "}" rest)) m0
  = Some (store m0 l).
Proof.
  revert m0 fuel. induction l as [|[k v] l IH]; [done|].
  intros m0 fuel _ Hvalid Hfuel.
  apply Forall_cons in Hvalid as [Hkv Hvalid].
  destruct fuel as [|fuel]; [cbn in Hfuel; lia|].
  destruct l as [|kv' l].
  - cbn [json.members json.object_loop].
    destruct (read_member k v (String newline (String "}" rest)) Hkv) as [-> Hval].
    change (json.skip_space (": " +:+ ?x)) with (String ":" (" " +:+ x)).
    change (N_of_ascii ":" =? 58)%N with true. cbv iota.
    change (json.skip_space (" " +:+ ?x)) with (json.skip_space x) in Hval |- *.
    rewrite Hval. reflexivity.
  - change (json.members ((k, v) :: kv' :: l))
      with (json.member (k, v) +:+ String "," (String newline json.indent)
            +:+ json.members (kv' :: l)).
    cbn [json.object_loop]. rewrite append_assoc.
    destruct (read_member k v
                ((String "," (String newline json.indent) +:+ json.members (kv' :: l))
                 +:+ String newline (String "}" rest)) Hkv) as [-> Hval].
    change (json.skip_space (": " +:+ ?x)) with (String ":" (" " +:+ x)).
    change (N_of_ascii ":" =? 58)%N with true. cbv iota.
    change (json.skip_space (" " +:+ ?x)) with (json.skip_space x) in Hval |- *.
    rewrite Hval. rewrite append_assoc.
    change (json.skip_space (String "," (String newline json.indent) +:+ ?x))
      with (String "," (String newline (json.indent +:+ x))).
    change (N_of_ascii "," =? 44)%N with true. cbv iota.
    change (json.skip_space (String newline (json.indent +:+ ?x)))
      with (json.skip_space x).
    rewrite skip_space_members by done.
    rewrite IH; [reflexivity|done|done|cbn in *; lia].
Qed.

Lemma store_union (l : list (string * string)) (m0 : gmap string string) :
  NoDup l.*1 → store m0 l = list_to_map l ∪ m0.
Proof.
  revert m0. induction l as [|[k v] l IH]; intros m0 Hnd.
  - cbn. by rewrite (left_id_L ∅ (∪)).
  - apply NoDup_cons in Hnd as [Hk Hnd]. cbn [store foldl fst snd].
    fold (store (<[k:=v]> m0) l). rewrite IH by done.
    cbn [list_to_map foldr fst snd].
    rewrite <- insert_union_l, <- insert_union_r; [done|].
    by apply not_elem_of_list_to_map_1.
Qed.

Lemma sorted_entries_perm m : json.sorted_entries m ≡ₚ map_to_list m.
Proof. apply merge_sort_Permutation. Qed.

Lemma store_sorted_entries m : store ∅ (json.sorted_entries m) = m.
Proof.
  rewrite store_union.
  - rewrite (right_id_L ∅ (∪)).
    rewrite <- (list_to_map_to_list m) at 2.
    apply list_to_map_proper; [|apply sorted_entries_perm].
    rewrite sorted_entries_perm. apply NoDup_fst_map_to_list.
  - rewrite sorted_entries_perm. apply NoDup_fst_map_to_list.
Qed.

(** [Decode] reads back what [Encode] writes for a map of valid UTF-8
    strings. *)
Lemma Decode_Encode m : valid_map m → json.Decode (json.Encode m) ∅ = Some m.
Proof.
  intros Hvalid.
  assert (Hl : Forall valid_entry (json.sorted_entries m)).
  { rewrite sorted_entries_perm. apply map_Forall_to_list in Hvalid.
    eapply Forall_impl; [exact Hvalid|]. by intros [k v]. }
  pose proof (store_sorted_entries m) as Hstore.
  unfold json.Encode, json.MarshalIndent.
  destruct (json.sorted_entries m) as [|kv l] eqn:Hsorted.
  { cbn in Hstore. by subst m. }
  set (L := kv :: l) in *.
  assert (HL : L ≠ []) by done.
  rewrite !append_assoc.
  change (String "{" (String newline json.indent) +:+ ?x)
    with (String "{" (String newline (json.indent +:+ x))).
  unfold json.Decode.
  change (json.skip_space (String "{" ?x)) with (String "{" x).
  change (N_of_ascii "{" =? 123)%N with true. cbv iota.
  change (json.skip_space (String newline (json.indent +:+ ?x)))
    with (json.skip_space x).
  rewrite skip_space_members by done.
  destruct (json.members L +:+ String newline "}" +:+ String newline "")
    as [|c' s2] eqn:Hm.
  { destruct L as [|kv0 [|kv1 L']]; [done| |];
      cbn [json.members] in Hm; unfold json.member, json.appendString in Hm;
      rewrite !append_cons in Hm; discriminate. }
  assert (Hc' : (N_of_ascii c' =? 125)%N = false).
  { destruct L as [|kv0 [|kv1 L']]; [done| |];
      cbn [json.members] in Hm; unfold json.member, json.appendString in Hm;
      rewrite !append_cons in Hm; injection Hm as <- _; reflexivity. }
  cbv iota. change (N_of_ascii "{" =? 123)%N with true. cbv iota.
  rewrite Hc', <- Hm, <- Hstore.
  change (String newline "}" +:+ String newline "")
    with (String newline (String "}" (String newline ""))).
  apply (object_loop_members L ∅ _ _ HL Hl).
  cbn [String.length]. rewrite length_append, length_append.
  pose proof (length_members L). lia.
Qed.


(** ** The code generator *)

Lemma world_eta w :
  mkWorld (urls w) (disk w) (trail w) (faults w) (rand_src w) (rand_pos w) = w.
Proof. by destruct w. Qed.

Lemma generate_spec n w :
  generate n w = (draw n (rand_src w) (rand_pos w), with_rand_pos (n + rand_pos w) w).
Proof.
  revert w. induction n as [|n IH]; intros w; simpl.
  - unfold with_rand_pos. by rewrite world_eta.
  - rewrite IH. simpl. unfold with_rand_pos. simpl.
    do 2 f_equal. lia.
Qed.

Lemma generateCode_spec w :
  generateCode w = (candidate 0 w, drawn 0 w).
Proof.
  unfold generateCode, candidate, drawn. rewrite generate_spec.
  do 2 f_equal; lia.
Qed.

Lemma alphabet_facts :
  length alphabet = 62 ∧ NoDup alphabet ∧ Forall (λ c, alnum c = true) alphabet.
Proof.
  split; [reflexivity|]. split.
  - apply (bool_decide_unpack _). by vm_compute.
  - by repeat constructor.
Qed.

Lemma draw_well_formed src p : well_formed (draw codeLength src p).
Proof.
  unfold well_formed, codeLength. split; [reflexivity|].
  assert (Hletter : ∀ i, letter (i mod String.length letters) ∈ alphabet).
  { intros i.
    assert (Hlt : i mod String.length letters < 62) by (apply Nat.mod_upper_bound; discriminate).
    revert Hlt. generalize (i mod String.length letters). intros n Hn.
    do 62 (destruct n as [|n]; [apply list_elem_of_In; vm_compute; tauto|]). lia. }
  simpl. repeat (apply Forall_cons_2; [apply Hletter|]). apply Forall_nil_2.
Qed.

(** ** [save] *)

Ltac next_syscall :=
  match goal with
  | |- context [match ?fs with [] => _ | _ :: _ => _ end] =>
    let f := fresh "f" in
    destruct fs as [|[f|] ?]; simpl
  end.

Ltac run_save :=
  unfold save, encode_urls, os_Create, file_Write, file_Close, os_Rename,
    contents, syscall, tempFile, with_disk, with_faults, with_urls;
  simpl; repeat next_syscall;
  rewrite ?lookup_insert_eq; simpl.

Lemma tempFile_neq : tempFile ≠ dbFile.
Proof. discriminate. Qed.

Lemma save_urls w : urls (save w).2 = urls w.
Proof. destruct w as [m d t fs src p]. run_save; reflexivity. Qed.

Lemma save_rand w :
  rand_src (save w).2 = rand_src w ∧ rand_pos (save w).2 = rand_pos w.
Proof. destruct w as [m d t fs src p]. run_save; done. Qed.

Lemma save_no_fault w : no_fault w → (save w).1 = None.
Proof.
  unfold no_fault. destruct w as [m d t fs src p]. simpl. intros Hfs.
  run_save; try reflexivity;
    repeat match goal with
           | H : Forall _ (_ :: _) |- _ => inversion H; clear H; subst
           end; discriminate.
Qed.

Lemma save_failed w e :
  (save w).1 = Some e → disk (save w).2 !! dbFile = disk w !! dbFile.
Proof.
  destruct w as [m d t fs src p]. run_save; intros He; try discriminate;
    rewrite ?lookup_insert_ne by discriminate; reflexivity.
Qed.

Lemma save_succeeded w :
  (save w).1 = None →
  disk (save w).2 = <[dbFile := json.Encode (urls w)]> (delete tempFile (disk w)).
Proof.
  destruct w as [m d t fs src p]. run_save; intros He; try discriminate.
  all: by rewrite ?delete_insert_eq.
Qed.

Ltac pick_seen t :=
  match goal with
  | |- ∃ _, ?a :: ?b :: ?c :: t = _ ∧ _ => exists [a; b; c]
  | |- ∃ _, ?a :: ?b :: t = _ ∧ _ => exists [a; b]
  | |- ∃ _, ?a :: t = _ ∧ _ => exists [a]
  | |- ∃ _, t = _ ∧ _ => exists []
  end.

Ltac lookup_disk :=
  repeat first
    [ rewrite lookup_insert_eq
    | rewrite lookup_insert_ne by (done || discriminate)
    | rewrite lookup_delete_ne by (done || discriminate) ].

Lemma save_trail w :
  ∃ seen,
    trail (save w).2 = (seen ++ trail w)%list ∧
    disk (save w).2 = hd (disk w) seen ∧
    Forall (λ d, d !! dbFile = disk w !! dbFile
                 ∨ d !! dbFile = Some (json.Encode (urls w))
                   ∧ ∃ d', d' ∈ seen ∧ d' !! tempFile = Some (json.Encode (urls w))
                           ∧ d' !! dbFile = disk w !! dbFile) seen ∧
    Forall (λ d, ∀ name, name ≠ dbFile → name ≠ tempFile →
                         d !! name = disk w !! name) seen.
Proof.
  destruct w as [m d t fs src p]. run_save.
  all: change (dbFile +:+ ".tmp") with tempFile;
    change ("" +:+ json.Encode m) with (json.Encode m).
  all: pick_seen t; split; [reflexivity|]; split; [reflexivity|].
  all: split; repeat apply Forall_cons_2; try apply Forall_nil_2.
  all: try (intros name ? ?; by lookup_disk).
  all: try (left; by lookup_disk).
  all: right; split; [by lookup_disk|].
  all: eexists; split; [apply list_elem_of_further, list_elem_of_here|].
  all: split; by lookup_disk.
Qed.

(** ** [shorten] *)

Lemma candidate_drawn j w : candidate j (drawn 0 w) = candidate (S j) w.
Proof.
  unfold candidate, drawn, with_rand_pos. cbn [rand_src rand_pos].
  f_equal. unfold codeLength. lia.
Qed.

Lemma drawn_drawn j w : drawn j (drawn 0 w) = drawn (S j) w.
Proof.
  unfold drawn, with_rand_pos. cbn [urls disk trail faults rand_src rand_pos].
  f_equal. unfold codeLength. lia.
Qed.

Lemma shorten_step fuel u w :
  shorten (S fuel) u w =
  match urls w !! candidate 0 w with
  | None => Some (commit u (candidate 0 w) (drawn 0 w))
  | Some _ => shorten fuel u (drawn 0 w)
  end.
Proof.
  cbn [shorten]. rewrite generateCode_spec.
  change (urls (drawn 0 w)) with (urls w).
  destruct (urls w !! candidate 0 w); [reflexivity|].
  unfold commit. by destruct (save _) as [[e|] w3].
Qed.

(** When [shorten] returns, it has stopped at the first free code. *)
Lemma shorten_inv fuel u w r w' :
  shorten fuel u w = Some (r, w') →
  ∃ j, j < fuel ∧ urls w !! candidate j w = None
       ∧ (∀ i, i < j → is_Some (urls w !! candidate i w))
       ∧ commit u (candidate j w) (drawn j w) = (r, w').
Proof.
  revert w. induction fuel as [|fuel IH]; intros w; [discriminate|].
  rewrite shorten_step. destruct (urls w !! candidate 0 w) as [t|] eqn:H0.
  - intros H. apply IH in H as (j & Hj & Hfree & Hbusy & Hc).
    rewrite candidate_drawn, drawn_drawn in *. simpl in *.
    exists (S j). repeat split; [lia|done| |done].
    intros [|i] Hi; [by rewrite H0|].
    specialize (Hbusy i ltac:(lia)). by rewrite candidate_drawn in Hbusy.
  - intros [= H]. exists 0. repeat split; [lia|done| |done]. lia.
Qed.

(** [shorten] returns as soon as the generator can produce a free
    code. *)
Lemma shorten_returns fuel k u w :
  urls w !! candidate k w = None → k < fuel →
  ∃ j, j ≤ k ∧ urls w !! candidate j w = None
       ∧ shorten fuel u w = Some (commit u (candidate j w) (drawn j w)).
Proof.
  revert fuel w. induction k as [|k IH]; intros fuel w Hfree Hk.
  - destruct fuel as [|fuel]; [lia|]. rewrite shorten_step, Hfree. by exists 0.
  - destruct fuel as [|fuel]; [lia|]. rewrite shorten_step.
    destruct (urls w !! candidate 0 w) as [t|] eqn:H0; [|exists 0; split; [lia|done]].
    destruct (IH fuel (drawn 0 w)) as (j & Hj & Hf & Hs); [|lia|].
    { by rewrite candidate_drawn. }
    rewrite candidate_drawn, drawn_drawn in *. simpl in Hf.
    exists (S j). split; [lia|done].
Qed.

Lemma commit_urls u code w :
  urls (commit u code w).2 = <[code := u]> (urls w).
Proof.
  unfold commit.
  pose proof (save_urls (with_urls (<[code := u]> (urls w)) w)) as H.
  destruct (save _) as [[e|] w3]; exact H.
Qed.

Lemma commit_result u code w :
  match (save (with_urls (<[code := u]> (urls w)) w)).1 with
  | Some e => (commit u code w).1 = (EmptyString, Some e)
  | None => (commit u code w).1 = (baseURL +:+ code, None)
  end.
Proof. unfold commit. by destruct (save _) as [[e|] w3]. Qed.

Lemma commit_disk u code w :
  disk (commit u code w).2 = disk (save (with_urls (<[code := u]> (urls w)) w)).2.
Proof. unfold commit. by destruct (save _) as [[e|] w3]. Qed.

Lemma letter_not_separator n : letter n ≠ "/"%char.
Proof.
  unfold letter. do 62 (destruct n as [|n]; [by vm_compute|]). by vm_compute.
Qed.

Lemma strip_separator_cons c s :
  c ≠ "/"%char → strip_separator (String c s) = String c s.
Proof.
  destruct c as [[] [] [] [] [] [] [] []]; try reflexivity.
  intros H. by destruct H.
Qed.

Lemma strip_separator_candidate j w :
  strip_separator (candidate j w) = candidate j w.
Proof.
  unfold candidate, codeLength. cbn [draw].
  apply strip_separator_cons, letter_not_separator.
Qed.

(** *** The layout of the snapshot *)

Lemma printable_app s t : printable (s +:+ t) = printable s && printable t.
Proof.
  induction s as [|c s IH]; [reflexivity|].
  rewrite append_cons. cbn [printable]. by rewrite IH, andb_assoc.
Qed.

Lemma readable_app s t : readable (s +:+ t) = readable s && readable t.
Proof.
  induction s as [|c s IH]; [reflexivity|].
  rewrite append_cons. cbn [readable]. by rewrite IH, andb_assoc.
Qed.

Lemma newlines_app s t : newlines (s +:+ t) = newlines s + newlines t.
Proof.
  induction s as [|c s IH]; [reflexivity|].
  rewrite append_cons. cbn [newlines]. rewrite IH. lia.
Qed.

Lemma printable_readable s : printable s = true → readable s = true.
Proof.
  induction s as [|c s IH]; [done|]. cbn [printable readable].
  intros [Hc Hs]%andb_true_iff. by rewrite Hc, orb_true_r, IH.
Qed.

Lemma printable_newlines s : printable s = true → newlines s = 0.
Proof.
  induction s as [|c s IH]; [done|]. cbn [printable newlines].
  intros [Hc Hs]%andb_true_iff. rewrite IH by done.
  destruct (Ascii.eqb_spec c newline) as [->|]; [discriminate|done].
Qed.

Lemma escape_printable c :
  (N_of_ascii c < 0x80)%N →
  printable (if json.htmlSafeSet (N_of_ascii c) then String c EmptyString
             else json.escape c) = true.
Proof.
  destruct c as [[] [] [] [] [] [] [] []]; intros Hc;
    try (exfalso; by vm_compute in Hc).
  all: reflexivity.
Qed.

Lemma hexdigit_printable n : printable (String (json.hexdigit n) EmptyString) = true.
Proof.
  unfold json.hexdigit. generalize (N.to_nat n). intros k.
  do 16 (destruct k as [|k]; [reflexivity|]). reflexivity.
Qed.

Lemma encoding_printable e r c s :
  utf8_encoding e r → e = String c s → (0x80 <= N_of_ascii c)%N →
  printable e = true.
Proof.
  intros He Hhead Hc.
  destruct He; injection Hhead as <- <-; cbn [printable];
    repeat (apply andb_true_iff; split); try reflexivity; apply N.leb_le; lia.
Qed.

(** [appendString] writes no control character. *)
Lemma appendString_loop_printable fuel s :
  printable (json.appendString_loop fuel s) = true.
Proof.
  revert s. induction fuel as [|fuel IH]; intros [|c s]; try reflexivity.
  cbn [json.appendString_loop].
  destruct (N.ltb_spec (N_of_ascii c) utf8.RuneSelf) as [Hc|Hc].
  { by rewrite printable_app, escape_printable, IH. }
  destruct (utf8.DecodeRuneInString (String c s)) as [r n] eqn:Hd.
  destruct (utf8.invalid (r, n)) eqn:Hinv; cbn [fst snd].
  { by rewrite printable_app, IH. }
  destruct ((r =? 8232)%N || (r =? 8233)%N).
  { change ("\u202" +:+ String ?h ?x) with ("\u202" +:+ (String h EmptyString +:+ x)).
    by rewrite !printable_app, hexdigit_printable, IH. }
  destruct (decode_encoding _ _ _ Hd Hinv ltac:(done)) as (e & He & Hn & Hs).
  rewrite printable_app, IH, andb_true_r.
  replace (upto n (String c s)) with e
    by (rewrite Hs at 1; subst n; symmetry; apply upto_app).
  destruct (encoding_head e r c s _ He Hs) as [e' He'].
  specialize (He' EmptyString). rewrite !append_nil_r in He'.
  by apply (encoding_printable e r c e').
Qed.

Lemma appendString_printable s : printable (json.appendString s) = true.
Proof.
  unfold json.appendString. cbn [printable].
  by rewrite printable_app, appendString_loop_printable.
Qed.

Lemma member_printable kv : printable (json.member kv) = true.
Proof.
  unfold json.member. by rewrite !printable_app, !appendString_printable.
Qed.

Lemma members_layout l :
  readable (json.members l) = true ∧ newlines (json.members l) = length l - 1.
Proof.
  induction l as [|kv [|kv' l] [IHr IHn]]; [done| |].
  - cbn [json.members length]. pose proof (member_printable kv) as Hp.
    split; [by apply printable_readable|]. rewrite printable_newlines by done. lia.
  - change (json.members (kv :: kv' :: l))
      with (json.member kv +:+ String "," (String newline json.indent)
            +:+ json.members (kv' :: l)).
    pose proof (member_printable kv) as Hp.
    rewrite !readable_app, !newlines_app, IHr, IHn.
    rewrite printable_readable, printable_newlines by done.
    split; [reflexivity|]. cbn. lia.
Qed.

(** The snapshot is text: it has no control character but the line
    feed, and as many lines as the map has entries, plus the two lines
    of the braces (one line for the empty map). *)
Lemma Encode_layout m :
  readable (json.Encode m) = true
  ∧ newlines (json.Encode m) = match size m with 0 => 1 | S n => S n + 2 end.
Proof.
  unfold json.Encode, json.MarshalIndent.
  assert (Hsize : length (json.sorted_entries m) = size m).
  { by rewrite sorted_entries_perm, length_map_to_list. }
  destruct (json.sorted_entries m) as [|kv l]; rewrite <- Hsize; [done|].
  destruct (members_layout (kv :: l)) as [Hr Hn].
  rewrite !readable_app, !newlines_app, Hr, Hn. cbn. split; [done|lia].
Qed.

Lemma letter_ascii n : (N_of_ascii (letter n) < 0x80)%N.
Proof.
  unfold letter. do 62 (destruct n as [|n]; [by vm_compute|]). by vm_compute.
Qed.

Lemma valid_loop_ascii fuel c s :
  (N_of_ascii c < 0x80)%N →
  utf8.valid_loop (S fuel) (String c s) = utf8.valid_loop fuel s.
Proof.
  intros Hc. cbn [utf8.valid_loop]. rewrite decode_ascii by exact Hc.
  unfold utf8.invalid. cbn [fst snd skip].
  replace (N_of_ascii c =? utf8.RuneError)%N with false; [done|].
  symmetry. apply N.eqb_neq. unfold utf8.RuneError. lia.
Qed.

Lemma candidate_valid j w : utf8.ValidString (candidate j w) = true.
Proof.
  unfold candidate, codeLength, utf8.ValidString. cbn [draw String.length].
  by rewrite !valid_loop_ascii by apply letter_ascii.
Qed.

(** ** [load] *)

(** A process that starts on a snapshot [save] wrote loads the map it
    encodes. *)
Lemma load_snapshot (w : World) (m : gmap string string) :
  no_fault w →
  disk w !! dbFile = Some (json.Encode m) →
  valid_map m →
  (load (with_urls ∅ w)).1 = None ∧ urls (load (with_urls ∅ w)).2 = m.
Proof.
  intros Hnf Hfile Hvalid. destruct w as [m0 d t fs src p].
  unfold no_fault in Hnf. cbn in Hnf, Hfile.
  unfold load, os_Open, decode_urls, file_Close, syscall, with_urls, with_faults.
  cbn. rewrite Hfile.
  destruct fs as [|f1 fs]; cbn.
  { rewrite (Decode_Encode m Hvalid). by cbn. }
  apply Forall_cons in Hnf as [-> Hnf].
  destruct fs as [|f2 fs]; cbn.
  { rewrite (Decode_Encode m Hvalid). by cbn. }
  apply Forall_cons in Hnf as [-> Hnf]. rewrite (Decode_Encode m Hvalid).
  destruct fs as [|f3 fs]; by cbn.
Qed.

(** ** The claims *)

(** C6: the code [generateCode] returns has length 6 and only symbols of
    the alphabet of 62 letters and digits, whatever the generator draws;
    the code [shorten] stores is such a code. *)
Theorem codes_well_formed (fuel : nat) (u : string) (w : World) :
  well_formed (generateCode w).1
  ∧ (length alphabet = 62 ∧ NoDup alphabet ∧ Forall (λ c, alnum c = true) alphabet)
  ∧ (∀ r w', shorten fuel u w = Some (r, w') →
       ∃ code, well_formed code ∧ urls w !! code = None
               ∧ urls w' = <[code := u]> (urls w)).
Proof.
  split; [|split].
  - rewrite generateCode_spec. apply draw_well_formed.
  - apply alphabet_facts.
  - intros r w' H. apply shorten_inv in H as (j & _ & Hfree & _ & Hc).
    exists (candidate j w). split; [apply draw_well_formed|]. split; [done|].
    pose proof (commit_urls u (candidate j w) (drawn j w)) as Hu.
    by rewrite Hc in Hu.
Qed.

Lemma codes_well_formed_witness :
  ∃ code, well_formed code ∧ urls world_empty !! code = None
          ∧ urls (commit "https://example.com/a" "aaaaaa" (drawn 0 world_empty)).2
            = <[code := "https://example.com/a"]> (urls world_empty).
Proof.
  destruct (codes_well_formed 1 "https://example.com/a" world_empty) as (_ & _ & H).
  apply (H (commit "https://example.com/a" "aaaaaa" (drawn 0 world_empty)).1).
  reflexivity.
Defined.

(** C7: without a snapshot file [load] returns no error and leaves the
    map as it is, so the map [init] made stays empty; [load] returns an
    error only when the file exists and opening or decoding it fails. *)
Theorem load_missing_file (w : World) :
  (disk w !! dbFile = None → load w = (None, w) ∧ urls (init w) = ∅)
  ∧ (∀ e w', load w = (Some e, w') →
       is_Some (disk w !! dbFile)
       ∧ ((os_Open dbFile w).1.2 = Some e
          ∨ ∃ data w1, os_Open dbFile w = ((Some data, None), w1)
                       ∧ (decode_urls data w1).1 = Some e)).
Proof.
  split.
  - intros Hnone. unfold init, load, os_Open. simpl. by rewrite Hnone.
  - intros e w'. unfold load, os_Open.
    destruct (disk w !! dbFile) as [data|] eqn:Hfile; [|discriminate].
    destruct (syscall w) as [[ft|] w1] eqn:Hsys; simpl.
    + destruct (IsNotExist (fault_err ft)); [discriminate|].
      intros [= <- <-]. split; [by eexists|]. by left.
    + destruct (decode_urls data w1) as [r w2] eqn:Hdec.
      destruct (file_Close w2) as [c w3].
      intros [= -> <-]. split; [by eexists|]. right.
      exists data, w1. by rewrite Hdec.
Qed.

Lemma load_missing_file_witness :
  (load world_empty = (None, world_empty) ∧ urls (init world_empty) = ∅)
  ∧ is_Some (disk world_corrupt !! dbFile).
Proof.
  split.
  - apply (load_missing_file world_empty). reflexivity.
  - eapply (load_missing_file world_corrupt). reflexivity.
Defined.

(** C8, which fails as stated: [redirectHandler] drops the first byte of
    the path whatever it is.  For the fragment [abc], which has no
    separator to strip, the code [abc] is stored and [Resolve] finds it,
    but the handler looks [bc] up and answers not found. *)
Lemma redirectHandler_drops_first_byte :
  Resolve_spec "abc" (urls world_abc) = ("https://example.com/a", true)
  ∧ redirectHandler "abc" world_abc = Some NotFound
  ∧ redirectHandler "abc" world_abc
    ≠ Some (answer (Resolve_spec "abc" (urls world_abc))).
Proof. split; [reflexivity|]. split; [reflexivity|discriminate]. Qed.

(** C8 as amended: for a path that starts with the separator, as every
    path the router hands over does, the handler looks the rest of the
    path up; it redirects to the stored target exactly when that code is
    in the map, and answers not found exactly when it is not. *)
Theorem redirectHandler_resolves (code : string) (w : World) :
  redirectHandler (String "/" code) w
  = Some (answer (Resolve_spec (String "/" code) (urls w)))
  ∧ (∀ dest, redirectHandler (String "/" code) w = Some (Redirect dest StatusFound)
             ↔ urls w !! code = Some dest)
  ∧ (redirectHandler (String "/" code) w = Some NotFound ↔ urls w !! code = None).
Proof.
  unfold redirectHandler, Resolve_spec, answer. simpl.
  destruct (urls w !! code) as [dest|]; simpl.
  - split; [done|]. split; [|split; discriminate].
    intros d. split; congruence.
  - split; [done|]. split; [|done].
    intros d. split; discriminate.
Qed.

Lemma redirectHandler_resolves_witness :
  redirectHandler "/abc" world_abc = Some (Redirect "https://example.com/a" StatusFound)
  ∧ redirectHandler "/bc" world_abc = Some NotFound.
Proof.
  split.
  - apply (redirectHandler_resolves "abc" world_abc). reflexivity.
  - apply (redirectHandler_resolves "bc" world_abc). reflexivity.
Defined.

(** C10: when creating the temporary file fails (the first system call
    of [save]), or when writing the encoded map to it fails (the
    second), [save] returns that error, and neither then nor at any
    moment before is the snapshot file changed. *)
Theorem save_error_keeps_snapshot (w : World) (f : fault) (rest : list (option fault)) :
  faults w = Some f :: rest ∨ faults w = None :: Some f :: rest →
  (save w).1 = Some (fault_err f)
  ∧ disk (save w).2 !! dbFile = disk w !! dbFile
  ∧ ∃ seen, trail (save w).2 = (seen ++ trail w)%list
            ∧ Forall (λ d, d !! dbFile = disk w !! dbFile) seen.
Proof.
  intros Hf.
  assert (Herr : (save w).1 = Some (fault_err f)).
  { destruct w as [m d t fs src p]. simpl in Hf.
    destruct Hf as [-> | ->]; [reflexivity|].
    destruct rest as [|[?|] ?]; reflexivity. }
  split; [done|]. split; [by eapply save_failed|].
  destruct w as [m d t fs src p]. simpl in Hf.
  destruct Hf as [-> | ->].
  - exists []. split; [reflexivity|constructor].
  - destruct rest as [|[?|] ?].
    all: eexists [_; _]; split; [reflexivity|].
    all: repeat apply Forall_cons_2; try apply Forall_nil_2; simpl; by lookup_disk.
Qed.

Lemma save_error_keeps_snapshot_witness :
  (save world_disk_full).1 = Some ErrNoSpace
  ∧ disk (save world_disk_full).2 !! dbFile = disk world_disk_full !! dbFile
  ∧ ∃ seen, trail (save world_disk_full).2 = (seen ++ trail world_disk_full)%list
            ∧ Forall (λ d, d !! dbFile = disk world_disk_full !! dbFile) seen.
Proof.
  apply (save_error_keeps_snapshot world_disk_full (Fault ErrNoSpace 3) []).
  right. reflexivity.
Defined.

(** C5: [save] writes the encoding of the whole map to the temporary
    file [urls.json.tmp] of the same directory and renames it over the
    snapshot only once it is written.  In every state the directory goes
    through, the snapshot file holds its old bytes or the whole new
    encoding, and no other file than these two is touched; when [save]
    succeeds the snapshot is the new encoding and the temporary file is
    gone, when it fails the snapshot is the old one.  The encoding is
    indented text: its only control character is the line feed, and it
    has one line for each entry between the lines of the two braces;
    when the strings of the map are valid UTF-8 it decodes to the whole
    map. *)
Theorem save_atomic_replace (w : World) :
  ∃ seen,
    trail (save w).2 = (seen ++ trail w)%list
    ∧ disk (save w).2 = hd (disk w) seen
    ∧ Forall (λ d, d !! dbFile = disk w !! dbFile
                   ∨ d !! dbFile = Some (json.Encode (urls w))
                     ∧ ∃ d', d' ∈ seen
                             ∧ d' !! tempFile = Some (json.Encode (urls w))
                             ∧ d' !! dbFile = disk w !! dbFile) seen
    ∧ Forall (λ d, ∀ name, name ≠ dbFile → name ≠ tempFile →
                           d !! name = disk w !! name) seen
    ∧ (no_fault w → (save w).1 = None)
    ∧ ((save w).1 = None →
       disk (save w).2 !! dbFile = Some (json.Encode (urls w))
       ∧ disk (save w).2 !! tempFile = None)
    ∧ (∀ e, (save w).1 = Some e → disk (save w).2 !! dbFile = disk w !! dbFile)
    ∧ readable (json.Encode (urls w)) = true
    ∧ newlines (json.Encode (urls w))
      = match size (urls w) with 0 => 1 | S n => S n + 2 end
    ∧ (valid_map (urls w) → json.Decode (json.Encode (urls w)) ∅ = Some (urls w)).
Proof.
  destruct (save_trail w) as (seen & Htrail & Hdisk & Hdb & Hother).
  exists seen. split; [exact Htrail|]. split; [exact Hdisk|].
  split; [exact Hdb|]. split; [exact Hother|].
  split; [apply save_no_fault|]. split; [|split].
  - intros Hok. rewrite (save_succeeded w Hok). split.
    + apply lookup_insert_eq.
    + rewrite lookup_insert_ne by discriminate. apply lookup_delete_eq.
  - intros e. apply save_failed.
  - destruct (Encode_layout (urls w)) as [Hr Hn].
    split; [exact Hr|]. split; [exact Hn|]. apply Decode_Encode.
Qed.

Lemma save_atomic_replace_witness :
  (save world_abc).1 = None
  ∧ disk (save world_abc).2 !! dbFile = Some (json.Encode (urls world_abc))
  ∧ disk (save world_abc).2 !! tempFile = None.
Proof.
  destruct (save_atomic_replace world_abc) as (seen & _ & _ & _ & _ & Hok & Hnew & _).
  assert (H : (save world_abc).1 = None) by (apply Hok; constructor).
  split; [exact H|]. exact (Hnew H).
Defined.

(** C1, which fails as stated: [shorten] has no rollback.  With a disk
    that fills up during the write, [shorten] returns the error, the
    snapshot file is not written, and the map keeps the new code. *)
Lemma shorten_error_keeps_entry :
  fst <$> shorten 1 "https://example.com/a" world_disk_full
  = Some (EmptyString, Some ErrNoSpace)
  ∧ urls world_disk_full !! "aaaaaa" = None
  ∧ urls_after (shorten 1 "https://example.com/a" world_disk_full) "aaaaaa"
    = Some "https://example.com/a"
  ∧ file_after (shorten 1 "https://example.com/a" world_disk_full) dbFile = None.
Proof. vm_compute. repeat apply conj; reflexivity. Qed.

(** C1 as amended: when [save] fails during [shorten], the call returns
    the error with an empty short URL and the snapshot file keeps its
    old bytes; the map is not rolled back, it holds the entry of the new
    code next to the entries it had. *)
Theorem shorten_error_no_rollback
    (fuel : nat) (u s : string) (e : error) (w w' : World) :
  shorten fuel u w = Some ((s, Some e), w') →
  s = EmptyString
  ∧ disk w' !! dbFile = disk w !! dbFile
  ∧ ∃ code, urls w !! code = None
            ∧ urls w' = <[code := u]> (urls w)
            ∧ urls w' !! code = Some u.
Proof.
  intros H. apply shorten_inv in H as (j & _ & Hfree & _ & Hc).
  pose proof (commit_urls u (candidate j w) (drawn j w)) as Hu.
  pose proof (commit_result u (candidate j w) (drawn j w)) as Hr.
  pose proof (commit_disk u (candidate j w) (drawn j w)) as Hd.
  rewrite Hc in Hu, Hr, Hd. simpl in Hu, Hr, Hd.
  destruct (save _).1 as [e'|] eqn:Hsave; [|discriminate].
  injection Hr as -> ->. split; [done|]. split.
  - rewrite Hd. by rewrite (save_failed _ _ Hsave).
  - exists (candidate j w). split; [done|]. split; [done|].
    rewrite Hu. apply lookup_insert_eq.
Qed.

Lemma shorten_error_no_rollback_witness :
  ∃ code, urls world_disk_full !! code = None
          ∧ urls (commit "https://example.com/a" "aaaaaa" (drawn 0 world_disk_full)).2
            = <[code := "https://example.com/a"]> (urls world_disk_full)
          ∧ urls (commit "https://example.com/a" "aaaaaa" (drawn 0 world_disk_full)).2
              !! code = Some "https://example.com/a".
Proof.
  apply (shorten_error_no_rollback 1 "https://example.com/a" EmptyString ErrNoSpace
           world_disk_full).
  reflexivity.
Defined.

(** C2: for a target [u] that is not empty and any state of the store
    in which the generator comes to a free code, [shorten] returns; when
    it returns a short URL, that URL is the base prefix followed by a
    code, and looking this code up gives [u]: it is [u] in the map and
    the redirect handler redirects to [u].  Without a failing system
    call it does return a short URL. *)
Theorem shorten_round_trip (fuel k : nat) (u : string) (w : World) :
  u ≠ EmptyString →
  urls w !! candidate k w = None →
  k < fuel →
  ∃ r w',
    shorten fuel u w = Some (r, w')
    ∧ (no_fault w → r.2 = None)
    ∧ (∀ short, r = (short, None) →
         ∃ code, short = baseURL +:+ code
                 ∧ urls w' !! code = Some u
                 ∧ Resolve_spec code (urls w') = (u, true)
                 ∧ redirectHandler (String "/" code) w'
                   = Some (Redirect u StatusFound)).
Proof.
  intros _ Hfree Hk.
  destruct (shorten_returns fuel k u w Hfree Hk) as (j & _ & Hj & Hs).
  destruct (commit u (candidate j w) (drawn j w)) as [r w'] eqn:Hc.
  exists r, w'. split; [done|].
  pose proof (commit_urls u (candidate j w) (drawn j w)) as Hu.
  pose proof (commit_result u (candidate j w) (drawn j w)) as Hr.
  rewrite Hc in Hu, Hr. simpl in Hu, Hr.
  split.
  - intros Hnf. rewrite save_no_fault in Hr by exact Hnf. by rewrite Hr.
  - intros short ->. destruct (save _).1 as [e'|]; [discriminate|].
    injection Hr as ->. exists (candidate j w).
    assert (Hlook : urls w' !! candidate j w = Some u).
    { rewrite Hu. apply lookup_insert_eq. }
    split; [done|]. split; [done|]. split.
    + unfold Resolve_spec.
      by rewrite strip_separator_candidate, Hlook.
    + unfold redirectHandler. by rewrite Hlook.
Qed.

Lemma shorten_round_trip_witness :
  ∃ r w',
    shorten 1 "https://example.com/a" world_empty = Some (r, w')
    ∧ r.2 = None
    ∧ ∃ code, r.1 = baseURL +:+ code
              ∧ redirectHandler (String "/" code) w'
                = Some (Redirect "https://example.com/a" StatusFound).
Proof.
  destruct (shorten_round_trip 1 0 "https://example.com/a" world_empty)
    as (r & w' & Hs & Hok & Hrt); [discriminate|reflexivity|lia|].
  exists r, w'. split; [exact Hs|].
  assert (Hr : r.2 = None) by (apply Hok; constructor).
  split; [exact Hr|].
  destruct (Hrt r.1) as (code & Hshort & _ & _ & Hred).
  { destruct r as [short err]. simpl in Hr. by rewrite Hr. }
  exists code. split; [exact Hshort|exact Hred].
Defined.

(** C4: the handler of [/shorten] hands an empty target to [shorten],
    which gives it a code, stores it and saves it, whereas [runCLI] and
    the bot refuse the empty target before they call [shorten]. *)
Theorem shortenHandler_empty_target (fuel k : nat) (w : World) :
  urls w !! candidate k w = None →
  k < fuel →
  no_fault w →
  (∃ code w',
      shortenHandler fuel (mkRequest "POST" (Some EmptyString)) w
      = Some (ShortURL (baseURL +:+ code), w')
      ∧ urls w !! code = None
      ∧ urls w' !! code = Some EmptyString
      ∧ disk w' !! dbFile = Some (json.Encode (urls w')))
  ∧ runCLI fuel false EmptyString w = Some (Usage, w)
  ∧ messageCreate fuel EmptyString w
    = Some (Reply "Please provide a URL to shorten. Usage: `!shorten <URL>`", w).
Proof.
  intros Hfree Hk Hnf. split; [|split; reflexivity].
  destruct (shorten_returns fuel k EmptyString w Hfree Hk) as (j & _ & Hj & Hs).
  destruct (commit EmptyString (candidate j w) (drawn j w)) as [r w'] eqn:Hc.
  pose proof (commit_urls EmptyString (candidate j w) (drawn j w)) as Hu.
  pose proof (commit_result EmptyString (candidate j w) (drawn j w)) as Hr.
  pose proof (commit_disk EmptyString (candidate j w) (drawn j w)) as Hd.
  rewrite Hc in Hu, Hr, Hd. cbn [fst snd] in Hu, Hr, Hd.
  set (w2 := with_urls _ (drawn j w)) in Hr, Hd.
  assert (Hsave : (save w2).1 = None) by (by apply save_no_fault).
  rewrite Hsave in Hr. subst r.
  exists (candidate j w), w'. split; [|split; [done|split]].
  - unfold shortenHandler. simpl. by rewrite Hs.
  - rewrite Hu. apply lookup_insert_eq.
  - rewrite Hd, (save_succeeded _ Hsave), Hu. apply lookup_insert_eq.
Qed.

Lemma shortenHandler_empty_target_witness :
  ∃ code w',
    shortenHandler 1 (mkRequest "POST" (Some EmptyString)) world_empty
    = Some (ShortURL (baseURL +:+ code), w')
    ∧ urls world_empty !! code = None
    ∧ urls w' !! code = Some EmptyString
    ∧ disk w' !! dbFile = Some (json.Encode (urls w')).
Proof.
  apply (shortenHandler_empty_target 1 0 world_empty);
    [reflexivity|lia|constructor].
Defined.

(** C3, which fails as stated: [Encode] writes a byte that is no valid
    UTF-8 as the escape of U+FFFD, so for the target made of the single
    byte 255 the snapshot [shorten] wrote gives a fresh process the
    three bytes of U+FFFD under the new code. *)
Lemma snapshot_coerces_invalid_utf8 :
  fst <$> shorten 1 (String (byte 255) EmptyString) world_empty
  = Some (baseURL +:+ "aaaaaa", None)
  ∧ urls_after (shorten 1 (String (byte 255) EmptyString) world_empty) "aaaaaa"
    = Some (String (byte 255) EmptyString)
  ∧ (shorten 1 (String (byte 255) EmptyString) world_empty
     ≫= λ x, urls (init (mkWorld ∅ (disk x.2) [] [] (λ _, 0) 0)) !! "aaaaaa")
    = Some (String (byte 239) (String (byte 191) (String (byte 189) EmptyString))).
Proof. vm_compute. repeat apply conj; reflexivity. Qed.

(** C3 as amended: when the codes and targets of the map and the new
    target are valid UTF-8 and [shorten] returns a short URL, the
    snapshot file holds the encoding of the map with the new entry, and
    a fresh process on that directory loads exactly this map, so it maps
    the new code to the same target. *)
Theorem snapshot_round_trip
    (fuel : nat) (u short : string) (w w' fresh : World) :
  shorten fuel u w = Some ((short, None), w') →
  valid_map (urls w) →
  utf8.ValidString u = true →
  disk fresh = disk w' →
  no_fault fresh →
  ∃ code,
    short = baseURL +:+ code
    ∧ urls w' = <[code := u]> (urls w)
    ∧ disk w' !! dbFile = Some (json.Encode (urls w'))
    ∧ (load (with_urls ∅ fresh)).1 = None
    ∧ urls (init fresh) = urls w'
    ∧ urls (init fresh) !! code = Some u.
Proof.
  intros Hs Hvalid Hu Hdisk Hnf.
  apply shorten_inv in Hs as (j & _ & Hfree & _ & Hc).
  pose proof (commit_urls u (candidate j w) (drawn j w)) as Hurls.
  pose proof (commit_result u (candidate j w) (drawn j w)) as Hr.
  pose proof (commit_disk u (candidate j w) (drawn j w)) as Hd.
  rewrite Hc in Hurls, Hr, Hd. cbn [fst snd] in Hurls, Hr, Hd.
  set (w2 := with_urls _ (drawn j w)) in Hr, Hd.
  destruct (save w2).1 as [e|] eqn:Hsave; [discriminate|].
  injection Hr as ->.
  change (urls (drawn j w)) with (urls w) in Hurls.
  assert (Hfile : disk w' !! dbFile = Some (json.Encode (urls w'))).
  { rewrite Hd, (save_succeeded _ Hsave), Hurls. apply lookup_insert_eq. }
  assert (Hvalid' : valid_map (urls w')).
  { rewrite Hurls. apply map_Forall_insert_2; [|exact Hvalid].
    split; [apply candidate_valid|exact Hu]. }
  rewrite <- Hdisk in Hfile.
  destruct (load_snapshot fresh (urls w') Hnf Hfile Hvalid') as [Hok Hload].
  exists (candidate j w). repeat apply conj; try done.
  - by rewrite <- Hdisk.
  - unfold init. rewrite Hload, Hurls. apply lookup_insert_eq.
Qed.

Lemma snapshot_round_trip_witness :
  ∃ code,
    baseURL +:+ "aaaaaa" = baseURL +:+ code
    ∧ urls (init (with_faults [] (commit "https://example.com/a" "aaaaaa"
                                    (drawn 0 world_empty)).2))
        !! code = Some "https://example.com/a".
Proof.
  destruct (snapshot_round_trip 1 "https://example.com/a" (baseURL +:+ "aaaaaa")
              world_empty
              (commit "https://example.com/a" "aaaaaa" (drawn 0 world_empty)).2
              (with_faults [] (commit "https://example.com/a" "aaaaaa"
                                 (drawn 0 world_empty)).2))
    as (code & Hshort & _ & _ & _ & _ & Hcode).
  - reflexivity.
  - apply map_Forall_empty.
  - reflexivity.
  - reflexivity.
  - constructor.
  - exists code. split; [exact Hshort|exact Hcode].
Defined.

(** * Further properties of the program *)

(** ** Helpers *)

Lemma save_other_files w name :
  name ≠ dbFile → name ≠ tempFile →
  disk (save w).2 !! name = disk w !! name.
Proof.
  intros Hdb Htmp. destruct w as [m d t fs src p]. run_save.
  all: change (dbFile +:+ ".tmp") with tempFile; by lookup_disk.
Qed.

Lemma save_faults_left w : no_fault w → no_fault (save w).2.
Proof.
  unfold no_fault. destruct w as [m d t fs src p]. cbn [faults].
  intros Hnf. run_save;
    repeat match goal with
           | H : Forall _ (_ :: _) |- _ => apply Forall_cons in H as [? H]
           end; try done; constructor.
Qed.

Lemma upto_all s : upto (String.length s) s = s.
Proof. rewrite <- (append_nil_r s) at 2. apply upto_app. Qed.

(** Once [os.Create] has succeeded, a [save] that fails leaves the
    temporary file behind. *)
Lemma save_failed_temp w e rest :
  faults w = None :: rest →
  (save w).1 = Some e →
  ∃ n, disk (save w).2 !! tempFile = Some (upto n (json.Encode (urls w))).
Proof.
  destruct w as [m d t fs src p]. cbn [faults urls]. intros ->. run_save.
  all: intros He; try discriminate.
  all: change (dbFile +:+ ".tmp") with tempFile;
    change ("" +:+ ?x) with x.
  all: first [ eexists; by lookup_disk
             | exists (String.length (json.Encode m));
               rewrite upto_all; by lookup_disk ].
Qed.

(** What a call of [shorten] that returned has done. *)
Lemma shorten_outcome fuel u w s err w' :
  shorten fuel u w = Some ((s, err), w') →
  ∃ j, j < fuel
       ∧ (∀ i, i < j → is_Some (urls w !! candidate i w))
       ∧ urls w !! candidate j w = None
       ∧ urls w' = <[candidate j w := u]> (urls w)
       ∧ rand_src w' = rand_src w
       ∧ rand_pos w' = codeLength * S j + rand_pos w
       ∧ (∀ name, name ≠ dbFile → name ≠ tempFile → disk w' !! name = disk w !! name)
       ∧ match err with
         | None => s = baseURL +:+ candidate j w
                   ∧ disk w' !! dbFile = Some (json.Encode (urls w'))
         | Some _ => s = EmptyString ∧ disk w' !! dbFile = disk w !! dbFile
         end.
Proof.
  intros H. apply shorten_inv in H as (j & Hj & Hfree & Hbusy & Hc).
  exists j. split; [exact Hj|]. split; [exact Hbusy|]. split; [exact Hfree|].
  pose proof (commit_urls u (candidate j w) (drawn j w)) as Hu.
  pose proof (commit_result u (candidate j w) (drawn j w)) as Hr.
  pose proof (commit_disk u (candidate j w) (drawn j w)) as Hd.
  rewrite Hc in Hu, Hr, Hd. cbn [fst snd] in Hu, Hr, Hd.
  change (urls (drawn j w)) with (urls w) in Hu.
  set (w2 := with_urls _ (drawn j w)) in Hr, Hd.
  assert (Hw' : w' = (save w2).2).
  { unfold commit in Hc. fold w2 in Hc.
    destruct (save w2) as [[e|] w3]; by injection Hc as _ _ <-. }
  split; [exact Hu|].
  destruct (save_rand w2) as [Hsrc Hpos].
  split; [by rewrite Hw', Hsrc|]. split; [by rewrite Hw', Hpos|].
  split.
  { intros name Hdb Htmp. rewrite Hd. by rewrite save_other_files. }
  destruct (save w2).1 as [e|] eqn:Hsave; injection Hr as -> ->.
  - split; [done|]. rewrite Hd. by rewrite (save_failed _ _ Hsave).
  - split; [done|]. rewrite Hd, (save_succeeded _ Hsave), Hu.
    apply lookup_insert_eq.
Qed.

Lemma draw_ext n src1 p1 src2 p2 :
  (∀ i, i < n → src2 (p2 + i) = src1 (p1 + i)) →
  draw n src2 p2 = draw n src1 p1.
Proof.
  revert p1 p2. induction n as [|n IH]; intros p1 p2 Hsame; [reflexivity|].
  cbn [draw]. f_equal.
  - specialize (Hsame 0 ltac:(lia)). rewrite !Nat.add_0_r in Hsame. by rewrite Hsame.
  - apply IH. intros i Hi. specialize (Hsame (S i) ltac:(lia)).
    by rewrite !Nat.add_succ_r in Hsame.
Qed.

(** [Decode] adds what [Encode] wrote to the map it is given. *)
Lemma Decode_Encode_into m m0 :
  valid_map m → json.Decode (json.Encode m) m0 = Some (m ∪ m0).
Proof.
  intros Hvalid.
  assert (Hl : Forall valid_entry (json.sorted_entries m)).
  { rewrite sorted_entries_perm. apply map_Forall_to_list in Hvalid.
    eapply Forall_impl; [exact Hvalid|]. by intros [k v]. }
  assert (Hstore : store m0 (json.sorted_entries m) = m ∪ m0).
  { rewrite store_union by (rewrite sorted_entries_perm; apply NoDup_fst_map_to_list).
    f_equal. rewrite <- (list_to_map_to_list m) at 2.
    apply list_to_map_proper; [|apply sorted_entries_perm].
    rewrite sorted_entries_perm. apply NoDup_fst_map_to_list. }
  unfold json.Encode, json.MarshalIndent.
  destruct (json.sorted_entries m) as [|kv l] eqn:Hsorted.
  { cbn in Hstore. by rewrite <- Hstore. }
  set (L := kv :: l) in *.
  assert (HL : L ≠ []) by done.
  rewrite !append_assoc.
  change (String "{" (String newline json.indent) +:+ ?x)
    with (String "{" (String newline (json.indent +:+ x))).
  unfold json.Decode.
  change (json.skip_space (String "{" ?x)) with (String "{" x).
  change (N_of_ascii "{" =? 123)%N with true. cbv iota.
  change (json.skip_space (String newline (json.indent +:+ ?x)))
    with (json.skip_space x).
  rewrite skip_space_members by done.
  destruct (json.members L +:+ String newline "}" +:+ String newline "")
    as [|c' s2] eqn:Hm.
  { destruct L as [|kv0 [|kv1 L']]; [done| |];
      cbn [json.members] in Hm; unfold json.member, json.appendString in Hm;
      rewrite !append_cons in Hm; discriminate. }
  assert (Hc' : (N_of_ascii c' =? 125)%N = false).
  { destruct L as [|kv0 [|kv1 L']]; [done| |];
      cbn [json.members] in Hm; unfold json.member, json.appendString in Hm;
      rewrite !append_cons in Hm; injection Hm as <- _; reflexivity. }
  cbv iota. change (N_of_ascii "{" =? 123)%N with true. cbv iota.
  rewrite Hc', <- Hm, <- Hstore.
  change (String newline "}" +:+ String newline "")
    with (String newline (String "}" (String newline ""))).
  apply (object_loop_members L m0 _ _ HL Hl).
  cbn [String.length]. rewrite length_append, length_append.
  pose proof (length_members L). lia.
Qed.

Lemma calls_urls_subseteq w n w' : calls w n w' → urls w ⊆ urls w'.
Proof.
  induction 1 as [w|w fuel u [s err] w1 n w2 Hs _ IH]; [done|].
  apply shorten_outcome in Hs as (j & _ & _ & Hfree & Hu & _).
  etrans; [|exact IH]. rewrite Hu. by apply insert_subseteq.
Qed.

(** ** What calls of [shorten] do to the store *)

(** X1: over any run of calls of [shorten], entries are only added:
    every entry the map had is still there with the same target, the
    map has one entry more for each call that returned, with or without
    an error, and no file but the snapshot and the temporary file is
    touched. *)
Theorem calls_only_add (w w' : World) (n : nat) :
  calls w n w' →
  urls w ⊆ urls w'
  ∧ size (urls w') = size (urls w) + n
  ∧ (∀ name, name ≠ dbFile → name ≠ tempFile → disk w' !! name = disk w !! name).
Proof.
  induction 1 as [w|w fuel u [s err] w1 n w2 Hs _ (IHsub & IHsize & IHdisk)].
  - split; [done|]. split; [lia|done].
  - apply shorten_outcome in Hs as (j & _ & _ & Hfree & Hu & _ & _ & Hd & _).
    split; [|split].
    + etrans; [|exact IHsub]. rewrite Hu. by apply insert_subseteq.
    + rewrite IHsize, Hu, map_size_insert_None by done. lia.
    + intros name Hdb Htmp. by rewrite IHdisk, Hd.
Qed.

Lemma calls_only_add_witness :
  size (urls (commit "https://example.com/b" "bbbbbb" (drawn 1 world_collision)).2) = 2
  ∧ urls (commit "https://example.com/b" "bbbbbb" (drawn 1 world_collision)).2
      !! "aaaaaa" = Some "https://example.com/a".
Proof.
  destruct (calls_only_add world_collision
              (commit "https://example.com/b" "bbbbbb" (drawn 1 world_collision)).2 1)
    as (Hsub & Hsize & _).
  - eapply (calls_shorten _ 2 "https://example.com/b"); [|apply calls_done].
    reflexivity.
  - split; [exact Hsize|].
    eapply (lookup_weaken _ _ _ _ _ Hsub). Unshelve. reflexivity.
Defined.

(** X2: a run of calls of [shorten] keeps invariant I2: when every code
    of the map has length 6 over the alphabet, so has every code of the
    map afterwards. *)
Theorem calls_keep_well_formed (w w' : World) (n : nat) :
  calls w n w' →
  map_Forall (λ code _, well_formed code) (urls w) →
  map_Forall (λ code _, well_formed code) (urls w').
Proof.
  induction 1 as [w|w fuel u [s err] w1 n w2 Hs _ IH]; [done|].
  intros Hwf. apply IH.
  apply shorten_outcome in Hs as (j & _ & _ & _ & -> & _).
  apply map_Forall_insert_2; [apply draw_well_formed|exact Hwf].
Qed.

Lemma calls_keep_well_formed_witness :
  map_Forall (λ code _, well_formed code)
    (urls (commit "https://example.com/a" "aaaaaa" (drawn 0 world_empty)).2).
Proof.
  apply (calls_keep_well_formed world_empty _ 1).
  - eapply (calls_shorten _ 1 "https://example.com/a"); [|apply calls_done].
    reflexivity.
  - apply map_Forall_empty.
Defined.

(** X3: the loop of [shorten] skips the codes that are taken and stops
    at the first free one: when the first [j] codes the generator yields
    are in the map and the next one is not, [shorten] returns, whatever
    bound above [j] is put on the loop, it has stored the target under
    that code, and the generator has been asked for [6 * (j + 1)]
    numbers. *)
Theorem shorten_first_free (fuel j : nat) (u : string) (w : World) :
  (∀ i, i < j → is_Some (urls w !! candidate i w)) →
  urls w !! candidate j w = None →
  j < fuel →
  ∃ r w',
    shorten fuel u w = Some (r, w')
    ∧ urls w' = <[candidate j w := u]> (urls w)
    ∧ rand_pos w' = rand_pos w + 6 * (j + 1).
Proof.
  intros Hbusy Hfree Hj.
  destruct (shorten_returns fuel j u w Hfree Hj) as (j' & Hle & Hfree' & Hs).
  assert (j' = j) as ->.
  { destruct (decide (j' = j)) as [|Hne]; [done|].
    destruct (Hbusy j' ltac:(lia)) as [t Ht]. congruence. }
  destruct (commit u (candidate j w) (drawn j w)) as [[s err] w'] eqn:Hc.
  exists (s, err), w'. split; [exact Hs|].
  apply shorten_outcome in Hs as (j2 & _ & Hbusy2 & Hfree2 & Hu & _ & Hpos & _).
  assert (j2 = j) as ->.
  { destruct (Nat.lt_trichotomy j2 j) as [Hlt|[->|Hgt]]; [|done|].
    - destruct (Hbusy j2 Hlt) as [t Ht]. congruence.
    - destruct (Hbusy2 j Hgt) as [t Ht]. congruence. }
  split; [exact Hu|]. rewrite Hpos. unfold codeLength. lia.
Qed.

Lemma shorten_first_free_witness :
  ∃ r w',
    shorten 2 "https://example.com/b" world_collision = Some (r, w')
    ∧ urls w' = <["bbbbbb" := "https://example.com/b"]> (urls world_collision)
    ∧ rand_pos w' = 12.
Proof.
  apply (shorten_first_free 2 1 "https://example.com/b" world_collision).
  - intros i Hi. assert (i = 0) as -> by lia. by eexists.
  - reflexivity.
  - lia.
Defined.

(** X4: the loop of [shorten] has no way out but a free code: when every
    code the generator yields is in the map, [shorten] does not return,
    however many codes it may try. *)
Theorem shorten_spins (u : string) (w : World) :
  (∀ j, is_Some (urls w !! candidate j w)) →
  ∀ fuel, shorten fuel u w = None.
Proof.
  intros Hbusy fuel. revert w Hbusy.
  induction fuel as [|fuel IH]; intros w Hbusy; [reflexivity|].
  rewrite shorten_step. destruct (Hbusy 0) as [t ->].
  apply IH. intros j. rewrite candidate_drawn. apply Hbusy.
Qed.

Lemma shorten_spins_witness :
  shorten 1000 "https://example.com/b" world_taken = None.
Proof.
  apply (shorten_spins "https://example.com/b" world_taken).
  intros j. by eexists.
Defined.

(** X5: two calls of [shorten] never give the same code, also for the
    same target: after the second call both codes are in the map, each
    with its target, and two short URLs that were returned differ. *)
Theorem shorten_twice_distinct
    (f1 f2 : nat) (u1 u2 s1 s2 : string) (e1 e2 : option error)
    (w w1 w2 : World) :
  shorten f1 u1 w = Some ((s1, e1), w1) →
  shorten f2 u2 w1 = Some ((s2, e2), w2) →
  ∃ c1 c2,
    c1 ≠ c2
    ∧ urls w2 !! c1 = Some u1
    ∧ urls w2 !! c2 = Some u2
    ∧ (e1 = None → s1 = baseURL +:+ c1)
    ∧ (e2 = None → s2 = baseURL +:+ c2)
    ∧ (e1 = None → e2 = None → s1 ≠ s2).
Proof.
  intros H1 H2.
  apply shorten_outcome in H1 as (j1 & _ & _ & Hfree1 & Hu1 & _ & _ & _ & Hr1).
  apply shorten_outcome in H2 as (j2 & _ & _ & Hfree2 & Hu2 & _ & _ & _ & Hr2).
  set (c1 := candidate j1 w) in *. set (c2 := candidate j2 w1) in *.
  assert (Hne : c1 ≠ c2).
  { intros Heq. rewrite Hu1, <- Heq, lookup_insert_eq in Hfree2. discriminate. }
  exists c1, c2. split; [exact Hne|]. split; [|split; [|split; [|split]]].
  - rewrite Hu2, lookup_insert_ne, Hu1 by done. apply lookup_insert_eq.
  - rewrite Hu2. apply lookup_insert_eq.
  - intros ->. by destruct Hr1.
  - intros ->. by destruct Hr2.
  - intros -> ->. destruct Hr1 as [-> _], Hr2 as [-> _].
    intros Heq. by apply String.app_inj in Heq.
Qed.

Lemma shorten_twice_distinct_witness :
  ∃ c1 c2,
    c1 ≠ c2
    ∧ baseURL +:+ "aaaaaa" = baseURL +:+ c1
    ∧ baseURL +:+ "bbbbbb" = baseURL +:+ c2.
Proof.
  destruct (shorten_twice_distinct 1 1
              "https://example.com/a" "https://example.com/a"
              (baseURL +:+ "aaaaaa") (baseURL +:+ "bbbbbb") None None
              world_counting
              (commit "https://example.com/a" "aaaaaa" (drawn 0 world_counting)).2
              (commit "https://example.com/a" "bbbbbb"
                 (drawn 0 (commit "https://example.com/a" "aaaaaa"
                             (drawn 0 world_counting)).2)).2)
    as (c1 & c2 & Hne & _ & _ & Hs1 & Hs2 & _).
  - reflexivity.
  - vm_compute. reflexivity.
  - exists c1, c2. split; [exact Hne|]. split; [by apply Hs1|by apply Hs2].
Defined.

(** X6: an entry whose own [save] failed is written by the next call
    that succeeds, because [save] writes the whole map: after a call of
    [shorten] that returned an error and a later one that returned a
    short URL, the snapshot is the encoding of the map with both
    entries, and a fresh process on that directory resolves the code of
    the failed call (the strings being valid UTF-8). *)
Theorem failed_entry_saved_later
    (f1 f2 : nat) (u1 u2 s1 s2 : string) (e : error)
    (w w1 w2 fresh : World) :
  shorten f1 u1 w = Some ((s1, Some e), w1) →
  shorten f2 u2 w1 = Some ((s2, None), w2) →
  valid_map (urls w) →
  utf8.ValidString u1 = true →
  utf8.ValidString u2 = true →
  disk fresh = disk w2 →
  no_fault fresh →
  ∃ c1,
    urls w !! c1 = None
    ∧ disk w1 !! dbFile = disk w !! dbFile
    ∧ urls w2 !! c1 = Some u1
    ∧ disk w2 !! dbFile = Some (json.Encode (urls w2))
    ∧ urls (init fresh) !! c1 = Some u1.
Proof.
  intros H1 H2 Hvalid Hu1 Hu2 Hdisk Hnf.
  apply shorten_outcome in H1 as (j1 & _ & _ & Hfree1 & Hm1 & _ & _ & _ & _ & Hd1).
  apply shorten_outcome in H2 as (j2 & _ & _ & Hfree2 & Hm2 & _ & _ & _ & _ & Hd2).
  assert (Hne : candidate j1 w ≠ candidate j2 w1).
  { intros Heq. rewrite Hm1, <- Heq, lookup_insert_eq in Hfree2. discriminate. }
  assert (Hlook : urls w2 !! candidate j1 w = Some u1).
  { rewrite Hm2, lookup_insert_ne, Hm1 by done. apply lookup_insert_eq. }
  assert (Hvalid2 : valid_map (urls w2)).
  { rewrite Hm2, Hm1.
    apply map_Forall_insert_2; [split; [apply candidate_valid|exact Hu2]|].
    apply map_Forall_insert_2; [split; [apply candidate_valid|exact Hu1]|].
    exact Hvalid. }
  exists (candidate j1 w). split; [exact Hfree1|]. split; [exact Hd1|].
  split; [exact Hlook|]. split; [exact Hd2|].
  rewrite <- Hdisk in Hd2.
  destruct (load_snapshot fresh (urls w2) Hnf Hd2 Hvalid2) as [_ Hload].
  unfold init. by rewrite Hload.
Qed.

Lemma failed_entry_saved_later_witness :
  ∃ c1,
    urls world_retry !! c1 = None
    ∧ urls (init (with_faults []
                    (commit "https://example.com/b" "bbbbbb"
                       (drawn 0 (commit "https://example.com/a" "aaaaaa"
                                   (drawn 0 world_retry)).2)).2))
        !! c1 = Some "https://example.com/a".
Proof.
  destruct (failed_entry_saved_later 1 1
              "https://example.com/a" "https://example.com/b"
              EmptyString (baseURL +:+ "bbbbbb") ErrNoSpace
              world_retry
              (commit "https://example.com/a" "aaaaaa" (drawn 0 world_retry)).2
              (commit "https://example.com/b" "bbbbbb"
                 (drawn 0 (commit "https://example.com/a" "aaaaaa"
                             (drawn 0 world_retry)).2)).2
              (with_faults []
                 (commit "https://example.com/b" "bbbbbb"
                    (drawn 0 (commit "https://example.com/a" "aaaaaa"
                                (drawn 0 world_retry)).2)).2))
    as (c1 & Hfree & _ & _ & _ & Hinit).
  - reflexivity.
  - vm_compute. reflexivity.
  - apply map_Forall_empty.
  - reflexivity.
  - reflexivity.
  - reflexivity.
  - constructor.
  - exists c1. split; [exact Hfree|exact Hinit].
Defined.

(** X7: [generateCode] is memoryless.  It changes nothing but the
    position of the generator, which it moves by six numbers, and its
    result depends on these six numbers only: not on the map, so that it
    can return a code that is taken. *)
Theorem generateCode_memoryless (w : World) :
  urls (generateCode w).2 = urls w
  ∧ disk (generateCode w).2 = disk w
  ∧ faults (generateCode w).2 = faults w
  ∧ rand_pos (generateCode w).2 = rand_pos w + 6
  ∧ (∀ w2, (∀ i, i < 6 → rand_src w2 (rand_pos w2 + i) = rand_src w (rand_pos w + i)) →
           (generateCode w2).1 = (generateCode w).1).
Proof.
  rewrite generateCode_spec. cbn [fst snd].
  split; [reflexivity|]. split; [reflexivity|]. split; [reflexivity|].
  split; [unfold drawn, codeLength; cbn; lia|].
  intros w2 Hsame. rewrite generateCode_spec. cbn [fst].
  unfold candidate, codeLength. apply draw_ext.
  intros i Hi. cbn [Nat.mul]. rewrite !Nat.add_0_l. by apply Hsame.
Qed.

Lemma generateCode_memoryless_witness :
  (generateCode world_taken).1 = (generateCode world_empty).1
  ∧ is_Some (urls world_taken !! (generateCode world_taken).1).
Proof.
  split.
  - apply (generateCode_memoryless world_empty). reflexivity.
  - by eexists.
Defined.

(** ** The entry points *)

(** X8: what each answer of the handler of [/shorten] means.  A request
    that is no POST, or whose body does not decode, is answered with 405
    or 400 and changes nothing.  Otherwise the target has been stored
    under a new code: with the short URL as answer, the map is saved and
    a request for the code is redirected to the target; with
    [Internal server error], the snapshot is as before although the map
    has the entry. *)
Theorem shortenHandler_responses
    (fuel : nat) (r : Request) (w w' : World) (resp : Response) :
  shortenHandler fuel r w = Some (resp, w') →
  (Method r ≠ "POST" ∧ w' = w
   ∧ resp = Error "Method not allowed" StatusMethodNotAllowed)
  ∨ (Method r = "POST" ∧ Body r = None ∧ w' = w
     ∧ resp = Error "Bad request" StatusBadRequest)
  ∨ (∃ url code,
        Method r = "POST" ∧ Body r = Some url
        ∧ urls w !! code = None
        ∧ urls w' = <[code := url]> (urls w)
        ∧ (resp = ShortURL (baseURL +:+ code)
           ∧ disk w' !! dbFile = Some (json.Encode (urls w'))
           ∧ redirectHandler (String "/" code) w' = Some (Redirect url StatusFound)
           ∨ resp = Error "Internal server error" StatusInternalServerError
             ∧ disk w' !! dbFile = disk w !! dbFile)).
Proof.
  unfold shortenHandler.
  destruct (String.eqb_spec (Method r) "POST") as [Hpost|Hpost]; cbn [negb].
  2: { intros [= <- <-]. by left. }
  destruct (Body r) as [url|].
  2: { intros [= <- <-]. right. by left. }
  destruct (shorten fuel url w) as [[[short err] w1]|] eqn:Hs; [|discriminate].
  apply shorten_outcome in Hs as (j & _ & _ & Hfree & Hu & _ & _ & _ & Hr).
  intros Hresp. right. right. exists url, (candidate j w).
  split; [exact Hpost|]. split; [reflexivity|].
  destruct err as [e|]; injection Hresp as <- <-.
  - split; [exact Hfree|]. split; [exact Hu|]. right. by destruct Hr.
  - destruct Hr as [-> Hd]. split; [exact Hfree|]. split; [exact Hu|]. left.
    split; [reflexivity|]. split; [exact Hd|].
    unfold redirectHandler. by rewrite Hu, lookup_insert_eq.
Qed.

Lemma shortenHandler_responses_witness :
  ∃ code,
    urls world_empty !! code = None
    ∧ urls (commit "https://example.com/a" "aaaaaa" (drawn 0 world_empty)).2
      = <[code := "https://example.com/a"]> (urls world_empty).
Proof.
  destruct (shortenHandler_responses 1
              (mkRequest "POST" (Some "https://example.com/a")) world_empty
              (commit "https://example.com/a" "aaaaaa" (drawn 0 world_empty)).2
              (ShortURL (baseURL +:+ "aaaaaa")))
    as [(Hm & _)|[(_ & Hb & _)|(url & code & _ & Hb & Hfree & Hu & _)]].
  - reflexivity.
  - by destruct Hm.
  - discriminate Hb.
  - injection Hb as <-. exists code. split; [exact Hfree|exact Hu].
Defined.

(** X9: a target shortened from the command line is served by a server
    started afterwards.  When [runCLI] prints a line, the line is
    [Shortened URL:] and the base URL followed by a code, the target was
    not empty, and a fresh process on the same directory redirects a
    request for that code to the target (the strings being valid
    UTF-8). *)
Theorem cli_then_server
    (fuel : nat) (longURL line : string) (w w' fresh : World) :
  runCLI fuel false longURL w = Some (Printed line, w') →
  valid_map (urls w) →
  utf8.ValidString longURL = true →
  disk fresh = disk w' →
  no_fault fresh →
  ∃ code,
    line = "Shortened URL: " +:+ baseURL +:+ code
    ∧ longURL ≠ EmptyString
    ∧ redirectHandler (String "/" code) (init fresh)
      = Some (Redirect longURL StatusFound).
Proof.
  unfold runCLI. intros Hrun Hvalid Hu Hdisk Hnf.
  destruct (String.eqb_spec longURL EmptyString) as [Hempty|Hne];
    cbn [negb] in Hrun; [discriminate|].
  destruct (shorten fuel longURL w) as [[[short err] w1]|] eqn:Hs; [|discriminate].
  destruct err as [e|]; [discriminate|]. injection Hrun as <- <-.
  apply shorten_outcome in Hs as (j & _ & _ & _ & Hm & _ & _ & _ & -> & Hd).
  assert (Hvalid' : valid_map (urls w1)).
  { rewrite Hm. apply map_Forall_insert_2; [|exact Hvalid].
    split; [apply candidate_valid|exact Hu]. }
  rewrite <- Hdisk in Hd.
  destruct (load_snapshot fresh (urls w1) Hnf Hd Hvalid') as [_ Hload].
  exists (candidate j w). split; [reflexivity|]. split; [exact Hne|].
  unfold redirectHandler, init. by rewrite Hload, Hm, lookup_insert_eq.
Qed.

Lemma cli_then_server_witness :
  ∃ code,
    "Shortened URL: " +:+ baseURL +:+ "aaaaaa"
    = "Shortened URL: " +:+ baseURL +:+ code
    ∧ redirectHandler (String "/" code)
        (init (with_faults [] (commit "https://example.com/a" "aaaaaa"
                                 (drawn 0 world_empty)).2))
      = Some (Redirect "https://example.com/a" StatusFound).
Proof.
  destruct (cli_then_server 1 "https://example.com/a"
              ("Shortened URL: " +:+ baseURL +:+ "aaaaaa") world_empty
              (commit "https://example.com/a" "aaaaaa" (drawn 0 world_empty)).2
              (with_faults [] (commit "https://example.com/a" "aaaaaa"
                                 (drawn 0 world_empty)).2))
    as (code & Hline & _ & Hred).
  - reflexivity.
  - apply map_Forall_empty.
  - reflexivity.
  - reflexivity.
  - constructor.
  - exists code. split; [exact Hline|exact Hred].
Defined.

(** X12: a short URL keeps its target: when a request for a code is
    redirected to a target, it is redirected to the same target after
    any run of calls of [shorten]. *)
Theorem redirect_is_stable (code target : string) (w w' : World) (n : nat) :
  calls w n w' →
  redirectHandler (String "/" code) w = Some (Redirect target StatusFound) →
  redirectHandler (String "/" code) w' = Some (Redirect target StatusFound).
Proof.
  intros Hcalls. unfold redirectHandler.
  destruct (urls w !! code) as [t|] eqn:Hlook; [|discriminate].
  intros [= ->].
  by rewrite (lookup_weaken _ _ _ _ Hlook (calls_urls_subseteq _ _ _ Hcalls)).
Qed.

Lemma redirect_is_stable_witness :
  redirectHandler "/aaaaaa"
    (commit "https://example.com/b" "bbbbbb" (drawn 1 world_collision)).2
  = Some (Redirect "https://example.com/a" StatusFound).
Proof.
  apply (redirect_is_stable "aaaaaa" "https://example.com/a" world_collision _ 1).
  - eapply (calls_shorten _ 2 "https://example.com/b"); [|apply calls_done].
    reflexivity.
  - reflexivity.
Defined.

(** X13: an entry whose [save] failed lives as long as the process.
    When the map was in step with the snapshot and [shorten] returns an
    error, the running process redirects requests for the new code to
    the target, and a fresh process on the same directory has the map
    as it was before the call and answers not found. *)
Theorem failed_entry_lost_on_restart
    (fuel : nat) (u s : string) (e : error) (w w' fresh : World) :
  shorten fuel u w = Some ((s, Some e), w') →
  disk w !! dbFile = Some (json.Encode (urls w)) →
  valid_map (urls w) →
  disk fresh = disk w' →
  no_fault fresh →
  ∃ code,
    redirectHandler (String "/" code) w' = Some (Redirect u StatusFound)
    ∧ urls (init fresh) = urls w
    ∧ redirectHandler (String "/" code) (init fresh) = Some NotFound.
Proof.
  intros Hs Hsync Hvalid Hdisk Hnf.
  apply shorten_outcome in Hs as (j & _ & _ & Hfree & Hu & _ & _ & _ & _ & Hd).
  rewrite <- Hdisk, Hsync in Hd.
  destruct (load_snapshot fresh (urls w) Hnf Hd Hvalid) as [_ Hload].
  exists (candidate j w). unfold redirectHandler, init.
  rewrite Hload, Hfree, Hu, lookup_insert_eq. done.
Qed.

Lemma failed_entry_lost_on_restart_witness :
  ∃ code,
    redirectHandler (String "/" code)
      (commit "https://example.com/b" "aaaaaa" (drawn 0 world_synced)).2
    = Some (Redirect "https://example.com/b" StatusFound)
    ∧ redirectHandler (String "/" code)
        (init (with_faults [] (commit "https://example.com/b" "aaaaaa"
                                 (drawn 0 world_synced)).2))
      = Some NotFound.
Proof.
  destruct (failed_entry_lost_on_restart 1 "https://example.com/b" EmptyString
              ErrNoSpace world_synced
              (commit "https://example.com/b" "aaaaaa" (drawn 0 world_synced)).2
              (with_faults [] (commit "https://example.com/b" "aaaaaa"
                                 (drawn 0 world_synced)).2))
    as (code & Hlive & _ & Hgone).
  - reflexivity.
  - reflexivity.
  - apply map_Forall_singleton. split; reflexivity.
  - reflexivity.
  - constructor.
  - exists code. split; [exact Hlive|exact Hgone].
Defined.

(** ** [save] and [load] at their edges *)

(** X10: [save] never removes the temporary file.  When it returns an
    error, either [os.Create] failed and the directory is as it was, or
    [urls.json.tmp] is left behind with the part of the encoding that
    was written. *)
Theorem failed_save_leaves_temp (w : World) (e : error) :
  (save w).1 = Some e →
  (∃ f rest, faults w = Some f :: rest ∧ e = fault_err f ∧ disk (save w).2 = disk w)
  ∨ (∃ n, disk (save w).2 !! tempFile = Some (upto n (json.Encode (urls w)))).
Proof.
  intros He. destruct (faults w) as [|[f|] rest] eqn:Hf.
  - rewrite save_no_fault in He; [discriminate|]. unfold no_fault. by rewrite Hf.
  - left. exists f, rest. split; [reflexivity|].
    destruct w as [m d t fs src p]. cbn [faults] in Hf. subst fs.
    injection He as <-. by split.
  - right. by apply (save_failed_temp w e rest).
Qed.

Lemma failed_save_leaves_temp_witness :
  ∃ n, disk (save world_disk_full).2 !! tempFile
       = Some (upto n (json.Encode (urls world_disk_full))).
Proof.
  destruct (failed_save_leaves_temp world_disk_full ErrNoSpace)
    as [(f & rest & Hf & _)|Htemp].
  - reflexivity.
  - discriminate Hf.
  - exact Htemp.
Defined.

(** X11: [load] does not clear the map: it adds the entries of the
    snapshot to those the map has, the target of the snapshot taking the
    place of the one in the map for a code that is in both.  It is the
    [make] of [init] that gives a process the map of the snapshot
    alone. *)
Theorem load_adds_to_map (w : World) (m : gmap string string) :
  no_fault w →
  disk w !! dbFile = Some (json.Encode m) →
  valid_map m →
  (load w).1 = None ∧ urls (load w).2 = m ∪ urls w.
Proof.
  intros Hnf Hfile Hvalid. destruct w as [m0 d t fs src p].
  unfold no_fault in Hnf. cbn in Hnf, Hfile.
  unfold load, os_Open, decode_urls, file_Close, syscall, with_urls, with_faults.
  cbn. rewrite Hfile.
  destruct fs as [|f1 fs]; cbn.
  { rewrite (Decode_Encode_into m m0 Hvalid). by cbn. }
  apply Forall_cons in Hnf as [-> Hnf].
  destruct fs as [|f2 fs]; cbn.
  { rewrite (Decode_Encode_into m m0 Hvalid). by cbn. }
  apply Forall_cons in Hnf as [-> Hnf]. rewrite (Decode_Encode_into m m0 Hvalid).
  destruct fs as [|f3 fs]; by cbn.
Qed.

Lemma load_adds_to_map_witness :
  (load world_merge).1 = None
  ∧ urls (load world_merge).2
    = {["xyz" := "https://example.com/x"]} ∪ urls world_merge.
Proof.
  apply (load_adds_to_map world_merge {["xyz" := "https://example.com/x"]}).
  - constructor.
  - reflexivity.
  - apply map_Forall_singleton. split; reflexivity.
Defined.
